(** * RestCommandFacility: a shallow embedding of src/RestCommandFacility.cpp

    The facility parses a configuration URI in its constructor, starts a
    response-handler thread that drains a queue of pending command results,
    offers a command callback to the REST endpoint and serves until a
    process-wide signal flag becomes non-zero.

    Conventions of the embedding:
    - [std::string] is [string]; [size_t] values are integers in
      [0, 2^64) with the wrap-around of unsigned arithmetic written out;
    - a C++ call that may throw returns an [outcome];
    - the threads of the program (signal delivery, transport producers,
      asynchronous tasks, the response handler, the thread inside [run]) are
      interleaved as a sequence of [event]s over one [system] state. *)

From Stdlib Require Import ZArith List String Ascii Bool Lia.
Import ListNotations.

Open Scope string_scope.
Open Scope Z_scope.

(** ** Exceptions and fallible calls *)

(** Values derived from [std::exception] that this code can meet.  The two
    ERS issues are declared in headers that are not part of the translated
    file; only their names and payloads are used here. *)
Inductive exception : Type :=
| invalid_argument (msg : string)   (* std::invalid_argument, from std::stoi *)
| out_of_range (msg : string)       (* std::out_of_range, from std::stoi / substr *)
| UnsupportedUri (uri : string)     (* appfwk issue; the spec calls it InvalidUri *)
| InvalidPort (port : Z)            (* issue raised by ValidPort::portNumber *)
| runtime_failure (msg : string).   (* any other std::exception of a collaborator *)

(** [e.what()].  The texts of the two ERS issues stand in for the messages
    their declarations format. *)
Definition what (e : exception) : string :=
  match e with
  | invalid_argument msg => msg
  | out_of_range msg => msg
  | UnsupportedUri uri => "Unsupported URI: " ++ uri
  | InvalidPort _ => "Invalid port"
  | runtime_failure msg => msg
  end.

(** What a C++ [throw] can carry: an object derived from [std::exception],
    or anything else (which [catch (const std::exception&)] lets through). *)
Inductive thrown : Type :=
| std_exception (e : exception)
| foreign_object.

Inductive outcome (A : Type) : Type :=
| Return (a : A)
| Throw (t : thrown).
Arguments Return {A} a.
Arguments Throw {A} t.

Definition bind {A B : Type} (c : outcome A) (k : A -> outcome B) : outcome B :=
  match c with
  | Return a => k a
  | Throw t => Throw t
  end.

Notation "x <- c ;; k" := (bind c (fun x => k))
  (at level 61, c at next level, right associativity).

(** ** std::string *)

Module StdString.

(** [std::string::npos], the largest [size_t]. *)
Definition npos : Z := 2 ^ 64 - 1.

(** Unsigned 64-bit wrap-around of [size_t] arithmetic. *)
Definition wrap (z : Z) : Z := z mod 2 ^ 64.

Definition size (s : string) : Z := Z.of_nat (String.length s).

Fixpoint take (n : nat) (s : string) : string :=
  match n, s with
  | S n', String c s' => String c (take n' s')
  | _, _ => EmptyString
  end.

Fixpoint drop (n : nat) (s : string) : string :=
  match n, s with
  | S n', String _ s' => drop n' s'
  | _, _ => s
  end.

Fixpoint starts_with (pat s : string) : bool :=
  match pat, s with
  | EmptyString, _ => true
  | String a pat', String b s' => Ascii.eqb a b && starts_with pat' s'
  | String _ _, EmptyString => false
  end.

(** Index of the first occurrence of a character. *)
Fixpoint first_index (c : ascii) (s : string) : option nat :=
  match s with
  | EmptyString => None
  | String a s' =>
      if Ascii.eqb a c then Some 0%nat else option_map S (first_index c s')
  end.

(** Index of the last occurrence of a character. *)
Fixpoint last_index (c : ascii) (s : string) : option nat :=
  match s with
  | EmptyString => None
  | String a s' =>
      match last_index c s' with
      | Some n => Some (S n)
      | None => if Ascii.eqb a c then Some 0%nat else None
      end
  end.

(** Index of the first occurrence of a substring. *)
Fixpoint first_occurrence (pat s : string) : option nat :=
  if starts_with pat s then Some 0%nat
  else match s with
       | EmptyString => None
       | String _ s' => option_map S (first_occurrence pat s')
       end.

Definition position (o : option nat) : Z :=
  match o with
  | Some n => Z.of_nat n
  | None => npos
  end.

(** [s.find(c)], [s.find(pat)] and [s.find_last_of(c)]. *)
Definition find_char (s : string) (c : ascii) : Z := position (first_index c s).
Definition find (s pat : string) : Z := position (first_occurrence pat s).
Definition find_last_of (s : string) (c : ascii) : Z := position (last_index c s).

(** [s.substr(pos, count)]: throws [std::out_of_range] when [pos > size()],
    otherwise the characters [pos, pos + min(count, size() - pos)). *)
Definition substr (s : string) (pos count : Z) : outcome string :=
  if size s <? pos
  then Throw (std_exception (out_of_range "basic_string::substr"))
  else Return (take (Z.to_nat (Z.min count (size s - pos)))
                    (drop (Z.to_nat pos) s)).

(** *** std::stoi (base 10) *)

Definition INT_MAX : Z := 2147483647.
Definition INT_MIN : Z := -2147483648.

Definition isspace (c : ascii) : bool :=
  let n := Z.of_nat (nat_of_ascii c) in
  (n =? 32) || ((9 <=? n) && (n <=? 13)).

Definition digit (c : ascii) : option Z :=
  let n := Z.of_nat (nat_of_ascii c) in
  if (48 <=? n) && (n <=? 57) then Some (n - 48) else None.

Fixpoint skip_spaces (s : string) : string :=
  match s with
  | String c s' => if isspace c then skip_spaces s' else s
  | EmptyString => s
  end.

(** Value of the longest prefix of decimal digits, continuing from [acc]. *)
Fixpoint digits_value (s : string) (acc : Z) : Z :=
  match s with
  | String c s' =>
      match digit c with
      | Some d => digits_value s' (10 * acc + d)
      | None => acc
      end
  | EmptyString => acc
  end.

Definition starts_with_digit (s : string) : bool :=
  match s with
  | String c _ => match digit c with Some _ => true | None => false end
  | EmptyString => false
  end.

(** [std::stoi(s)]: leading white space is skipped, one sign is accepted,
    the longest run of digits is converted and what follows is ignored;
    no digit at all is [std::invalid_argument], a value that does not fit
    an [int] is [std::out_of_range]. *)
Definition stoi (s : string) : outcome Z :=
  let s1 := skip_spaces s in
  let '(negative, s2) :=
    match s1 with
    | String "-"%char r => (true, r)
    | String "+"%char r => (false, r)
    | _ => (false, s1)
    end in
  if starts_with_digit s2
  then let v := digits_value s2 0 in
       let v := if negative then - v else v in
       if (INT_MIN <=? v) && (v <=? INT_MAX)
       then Return v
       else Throw (std_exception (out_of_range "stoi"))
  else Throw (std_exception (invalid_argument "stoi")).

End StdString.
Import StdString.

(** ** URI parsing in the constructor *)

(** The five strings the constructor cuts out of the URI (lines 112-116). *)
Record uri_parts : Type := {
  scheme : string;
  iname : string;
  portstr : string;
  epname : string;
  hostname : string
}.

(** Lines 106-116 of the constructor. *)
Definition parse_uri (uri : string) : outcome uri_parts :=
  let col := find_last_of uri ":"%char in
  let at_ := find_char uri "@"%char in
  let sep := find uri "://" in
  if (col =? npos) || (sep =? npos)
  then Throw (std_exception (UnsupportedUri uri))
  else
    scheme <- substr uri 0 sep ;;
    iname <- substr uri (wrap (sep + 3)) npos ;;
    portstr <- substr uri (wrap (col + 1)) npos ;;
    epname <- substr uri (wrap (sep + 3)) (wrap (at_ - wrap (sep + 3))) ;;
    hostname <- substr uri (wrap (at_ + 1)) (wrap (col - wrap (at_ + 1))) ;;
    Return {| scheme := scheme; iname := iname; portstr := portstr;
              epname := epname; hostname := hostname |}.

(** Modelled from the spec: [ValidPort::portNumber] is declared in
    ValidPort.hpp, which is not part of the translated file.  The spec gives
    the port validator as [validate(int) -> validated port], failing with
    [InvalidPort] outside [1, 65535]. *)
Definition portNumber (port : Z) : outcome Z :=
  if (1 <=? port) && (port <=? 65535)
  then Return port
  else Throw (std_exception (InvalidPort port)).

(** Decimal numerals, to state what the port text of a URI denotes: the text
    of a list of digits and the number it stands for. *)
Definition digit_char (d : nat) : ascii := ascii_of_nat (48 + d).

Fixpoint digits_text (ds : list nat) : string :=
  match ds with
  | [] => EmptyString
  | d :: ds' => String (digit_char d) (digits_text ds')
  end.

Definition digits_number (ds : list nat) : Z :=
  fold_left (fun acc d => 10 * acc + Z.of_nat d) ds 0.


(** ** Data of the facility *)

(** [dune::daq::ccm::CommandResult], built as [rr(ansaddr, port, "")]. *)
Record CommandResult : Type := {
  answer_addr_ : string;
  answer_port_ : Z;
  result_ : string
}.

Definition set_result_ (rr : CommandResult) (r : string) : CommandResult :=
  {| answer_addr_ := answer_addr_ rr; answer_port_ := answer_port_ rr;
     result_ := r |}.

(** [std::launch]. *)
Inductive launch : Type := async | deferred.

(** Modelled from the spec: the element type of [ResultQueue] is declared in
    CallbackTypes.hpp, which is not part of the translated file.  The spec
    gives it as a pending outcome, an asynchronous handle that yields exactly
    one [CommandResult].  A handle launched [deferred] becomes ready when it
    is waited for; one launched [async] becomes ready when its task
    completes. *)
Record future : Type := {
  fut_id : nat;
  fut_launch : launch;
  fut_value : CommandResult
}.

(** Modelled from the spec: [RestEndpoint] is declared in RestEndpoint.hpp,
    which is not part of the translated file.  The spec gives the transport
    the operations [init(threadCount)], [start()] and [shutdown()]; [start]
    may fail, which [run] catches. *)
Record RestEndpoint : Type := {
  ep_host : string;
  ep_port : Z;
  ep_policy : launch;
  ep_threads : Z;
  ep_listening : bool
}.

Definition make_endpoint (host : string) (port : Z) (policy : launch) : RestEndpoint :=
  {| ep_host := host; ep_port := port; ep_policy := policy;
     ep_threads := 0; ep_listening := false |}.

Definition ep_init (threads : Z) (ep : RestEndpoint) : RestEndpoint :=
  {| ep_host := ep_host ep; ep_port := ep_port ep; ep_policy := ep_policy ep;
     ep_threads := threads; ep_listening := ep_listening ep |}.

Definition ep_set_listening (b : bool) (ep : RestEndpoint) : RestEndpoint :=
  {| ep_host := ep_host ep; ep_port := ep_port ep; ep_policy := ep_policy ep;
     ep_threads := ep_threads ep; ep_listening := b |}.

(** A raw pointer member: never written, null, or the address of an object. *)
Inductive pointer (A : Type) : Type :=
| indeterminate
| nullptr
| ref (a : A).
Arguments indeterminate {A}.
Arguments nullptr {A}.
Arguments ref {A} a.

(** The signals the constructor names when it registers [sigHandler], with
    their numbers on Linux.  The registration for SIGKILL has no effect on a
    POSIX system, where this signal cannot be caught; see [deliver]. *)
Inductive signum : Type := SIGQUIT | SIGKILL | SIGABRT.

Definition signal_number (sg : signum) : Z :=
  match sg with
  | SIGQUIT => 3
  | SIGKILL => 9
  | SIGABRT => 6
  end.

(** What the code writes to the ERS streams. *)
Inductive ers_entry : Type :=
| info_signal (signal : Z)                        (* "Signal to stop received: " *)
| info_endpoint (epname hostname portstr : string) (* "Endpoint: ... host: ... port: ..." *)
| info_protocol (scheme : string)                  (* "  -> open with protocol:" *)
| info_answer (res : CommandResult)                (* "Answer to .. " *)
| error_issue (e : exception).                     (* ers::error *)

(** Where the response-handler thread stands in [responseHandler]. *)
Inductive handler_pc : Type :=
| AtWhile                 (* about to test [!global_signal] *)
| AtEmpty                 (* about to test [result_queue_.empty()] *)
| Sleeping                (* inside [sleep_for(1s)] *)
| AtTryPop                (* about to call [try_pop(fut)] *)
| AtWait (fut : future)   (* inside [fut.wait()] *)
| Finished.               (* the function has returned *)

(** Where the thread that owns the facility stands with respect to [run]. *)
Inductive owner_pc : Type := OutsideRun | InsideRun.

(** The external classes the facility is compiled against. *)
Class Collaborators : Type := {
  object_t : Type;                                  (* nlohmann::json *)
  object_parse : string -> outcome object_t;        (* object_t::parse *)
  DAQModuleManager : Type;
  execute : DAQModuleManager -> object_t -> outcome unit
}.

(** The result of calling into code that may also have no defined behaviour. *)
Inductive call (A : Type) : Type :=
| Returns (a : A)
| Propagates (t : thrown)
| Undefined.
Arguments Returns {A} a.
Arguments Propagates {A} t.
Arguments Undefined {A}.

Section Facility.

Context `{Collaborators}.

(** The global [global_signal], the members of [restCommandFacility], the
    control points of its two threads, the set of asynchronous tasks that
    have completed and the ERS output. *)
Record system : Type := {
  global_signal : Z;
  manager_ptr_ : pointer DAQModuleManager;
  rest_endpoint_ : option RestEndpoint;
  result_queue_ : list future;
  policy_ : launch;
  response_handler_ : handler_pc;
  owner : owner_pc;
  completed : list nat;
  ers : list ers_entry
}.

Definition with_signal (g : Z) (s : system) : system :=
  {| global_signal := g; manager_ptr_ := manager_ptr_ s;
     rest_endpoint_ := rest_endpoint_ s; result_queue_ := result_queue_ s;
     policy_ := policy_ s; response_handler_ := response_handler_ s;
     owner := owner s; completed := completed s; ers := ers s |}.

Definition with_manager (p : pointer DAQModuleManager) (s : system) : system :=
  {| global_signal := global_signal s; manager_ptr_ := p;
     rest_endpoint_ := rest_endpoint_ s; result_queue_ := result_queue_ s;
     policy_ := policy_ s; response_handler_ := response_handler_ s;
     owner := owner s; completed := completed s; ers := ers s |}.

Definition with_endpoint (e : option RestEndpoint) (s : system) : system :=
  {| global_signal := global_signal s; manager_ptr_ := manager_ptr_ s;
     rest_endpoint_ := e; result_queue_ := result_queue_ s;
     policy_ := policy_ s; response_handler_ := response_handler_ s;
     owner := owner s; completed := completed s; ers := ers s |}.

Definition with_queue (q : list future) (s : system) : system :=
  {| global_signal := global_signal s; manager_ptr_ := manager_ptr_ s;
     rest_endpoint_ := rest_endpoint_ s; result_queue_ := q;
     policy_ := policy_ s; response_handler_ := response_handler_ s;
     owner := owner s; completed := completed s; ers := ers s |}.

Definition with_handler (pc : handler_pc) (s : system) : system :=
  {| global_signal := global_signal s; manager_ptr_ := manager_ptr_ s;
     rest_endpoint_ := rest_endpoint_ s; result_queue_ := result_queue_ s;
     policy_ := policy_ s; response_handler_ := pc;
     owner := owner s; completed := completed s; ers := ers s |}.

Definition with_owner (o : owner_pc) (s : system) : system :=
  {| global_signal := global_signal s; manager_ptr_ := manager_ptr_ s;
     rest_endpoint_ := rest_endpoint_ s; result_queue_ := result_queue_ s;
     policy_ := policy_ s; response_handler_ := response_handler_ s;
     owner := o; completed := completed s; ers := ers s |}.

Definition with_completed (c : list nat) (s : system) : system :=
  {| global_signal := global_signal s; manager_ptr_ := manager_ptr_ s;
     rest_endpoint_ := rest_endpoint_ s; result_queue_ := result_queue_ s;
     policy_ := policy_ s; response_handler_ := response_handler_ s;
     owner := owner s; completed := c; ers := ers s |}.

Definition log (e : ers_entry) (s : system) : system :=
  {| global_signal := global_signal s; manager_ptr_ := manager_ptr_ s;
     rest_endpoint_ := rest_endpoint_ s; result_queue_ := result_queue_ s;
     policy_ := policy_ s; response_handler_ := response_handler_ s;
     owner := owner s; completed := completed s; ers := ers s ++ [e] |}.

(** *** Constructor (lines 99-138) *)

(** Lines 129-133: the body of the constructor's [try] block. *)
Definition setup_endpoint (parts : uri_parts) (policy : launch) : outcome RestEndpoint :=
  n <- stoi (portstr parts) ;;
  port <- portNumber n ;;
  Return (ep_init 1 (make_endpoint (hostname parts) port policy)).

(** [explicit restCommandFacility(std::string uri)].  [global_signal] has
    static storage and starts at zero; [manager_ptr_] has no initialiser;
    [policy_] is [std::launch::deferred]; the response-handler thread is
    started before the endpoint is set up.  An exception of the [try]
    block is reported through [ers::error] and the constructor returns. *)
Definition restCommandFacility (uri : string) : outcome system :=
  parts <- parse_uri uri ;;
  let s :=
    {| global_signal := 0;
       manager_ptr_ := indeterminate;
       rest_endpoint_ := None;
       result_queue_ := [];
       policy_ := deferred;
       response_handler_ := AtWhile;
       owner := OutsideRun;
       completed := [];
       ers := [info_endpoint (epname parts) (hostname parts) (portstr parts);
               info_protocol (scheme parts)] |} in
  match setup_endpoint parts (policy_ s) with
  | Return ep => Return (with_endpoint (Some ep) s)
  | Throw (std_exception e) =>
      Return (log (error_issue (UnsupportedUri (what e))) s)
  | Throw foreign_object => Throw foreign_object
  end.

(** *** Command callback (lines 53-64) *)

(** [manager_ptr_->execute(object_t::parse(command))] evaluates the member
    access before the argument, so a pointer that refers to no manager has
    no defined behaviour whatever the command is.  The handler catches
    [const std::exception&] only. *)
Definition commandHandler (s : system) (command ansaddr : string) (port : Z)
  : call CommandResult :=
  let rr := {| answer_addr_ := ansaddr; answer_port_ := port; result_ := "" |} in
  match manager_ptr_ s with
  | ref manager =>
      match (o <- object_parse command ;; execute manager o) with
      | Return _ => Returns (set_result_ rr "OK")
      | Throw (std_exception e) => Returns (set_result_ rr (what e))
      | Throw foreign_object => Propagates foreign_object
      end
  | indeterminate | nullptr => Undefined
  end.

(** *** Signal handler (lines 47-50) *)

Definition sigHandler (signal : Z) (s : system) : system :=
  with_signal signal (log (info_signal signal) s).

(** *** Response handler (lines 66-82), one control point at a time *)

(** Whether [fut.wait()] returns.  A deferred outcome is resolved by the
    wait itself, which runs its task on the waiting thread ([wait_defined]
    says when that has defined behaviour); an asynchronous one is resolved
    once its task has completed.  The [CommandResult] an outcome yields is
    the one the outcome carries. *)
Definition is_ready (f : future) (s : system) : bool :=
  match fut_launch f with
  | deferred => true
  | async => existsb (Nat.eqb (fut_id f)) (completed s)
  end.

(** One step of the loop.  [fut.wait()] and [fut.get()] are one step, taken
    when the outcome is resolved; the line written for it is the delivery. *)
Definition responseHandler (s : system) : system :=
  match response_handler_ s with
  | AtWhile =>
      if global_signal s =? 0 then with_handler AtEmpty s
      else with_handler Finished s
  | AtEmpty =>
      match result_queue_ s with
      | [] => with_handler Sleeping s
      | _ :: _ => with_handler AtTryPop s
      end
  | Sleeping => with_handler AtWhile s
  | AtTryPop =>
      match result_queue_ s with
      | fut :: rest => with_handler (AtWait fut) (with_queue rest s)
      | [] => with_handler AtWhile s
      end
  | AtWait fut =>
      if is_ready fut s
      then with_handler AtWhile (log (info_answer (fut_value fut)) s)
      else s
  | Finished => s
  end.

(** *** run (lines 140-160) *)

(** Entry of [run(manager)] up to the wait loop.  [start_failure] is the
    exception [rest_endpoint_->start()] throws, if any.  A null
    [rest_endpoint_] is dereferenced without a test.  The owning thread is
    either outside or inside [run]; while it is inside, it cannot enter
    again, and the event changes nothing. *)
Definition run_enter (manager : DAQModuleManager) (start_failure : option exception)
           (s : system) : option system :=
  match owner s with
  | InsideRun => Some s
  | OutsideRun =>
      let s1 := with_manager (ref manager) s in
      match rest_endpoint_ s1 with
      | None => None
      | Some ep =>
          let s2 :=
            match start_failure with
            | None => with_endpoint (Some (ep_set_listening true ep)) s1
            | Some e => log (error_issue (UnsupportedUri (what e))) s1
            end in
          Some (with_owner InsideRun s2)
      end
  end.

(** One test of the wait loop of [run], and what follows it on exit:
    [rest_endpoint_->shutdown()] and [manager_ptr_ = nullptr]. *)
Definition run_poll (s : system) : option system :=
  match owner s with
  | OutsideRun => Some s
  | InsideRun =>
      if global_signal s =? 0 then Some s
      else match rest_endpoint_ s with
           | None => None
           | Some ep =>
               Some (with_owner OutsideRun
                       (with_manager nullptr
                          (with_endpoint (Some (ep_set_listening false ep)) s)))
           end
  end.

(** *** Destructor (lines 85-87) *)

(** [response_handler_.join()] returns once the thread has finished and
    changes nothing else; [None] stands for a join that is still blocked. *)
Definition destructor (s : system) : option system :=
  match response_handler_ s with
  | Finished => Some s
  | _ => None
  end.

(** *** Interleavings *)

Inductive event : Type :=
| Signal (sg : signum)            (* a registered signal is delivered *)
| Push (fut : future)             (* a producer pushes onto the queue *)
| Complete (id : nat)             (* an asynchronous task finishes *)
| Handler                         (* the response handler advances *)
| RunCall (manager : DAQModuleManager) (start_failure : option exception)
| RunPoll.                        (* the thread inside [run] advances *)

(** Delivery of a signal the constructor names.  SIGQUIT and SIGABRT run
    [sigHandler].  SIGKILL cannot be caught: the registration at line 102
    fails and the delivery ends the process, so no state follows. *)
Definition deliver (sg : signum) (s : system) : option system :=
  match sg with
  | SIGKILL => None
  | SIGQUIT | SIGABRT => Some (sigHandler (signal_number sg) s)
  end.

(** One event; [None] when the program has no defined behaviour or the
    process has been killed. *)
Definition step (ev : event) (s : system) : option system :=
  match ev with
  | Signal sg => deliver sg s
  | Push fut => Some (with_queue (result_queue_ s ++ [fut]) s)
  | Complete id => Some (with_completed (id :: completed s) s)
  | Handler => Some (responseHandler s)
  | RunCall manager start_failure => run_enter manager start_failure s
  | RunPoll => run_poll s
  end.

Fixpoint exec (evs : list event) (s : system) : option system :=
  match evs with
  | [] => Some s
  | ev :: evs' =>
      match step ev s with
      | Some s' => exec evs' s'
      | None => None
      end
  end.

(** The pending outcomes pushed during a trace, in push order. *)
Fixpoint pushed (evs : list event) : list future :=
  match evs with
  | [] => []
  | Push fut :: evs' => fut :: pushed evs'
  | _ :: evs' => pushed evs'
  end.

(** The results delivered so far, in delivery order. *)
Fixpoint answers (l : list ers_entry) : list CommandResult :=
  match l with
  | [] => []
  | info_answer res :: l' => res :: answers l'
  | _ :: l' => answers l'
  end.

(** The outcome the response handler has popped and not yet delivered. *)
Definition in_flight (s : system) : list future :=
  match response_handler_ s with
  | AtWait fut => [fut]
  | _ => []
  end.

(** The results delivered, the one being waited for and the ones queued,
    in this order. *)
Definition accounted (s : system) : list CommandResult :=
  (answers (ers s) ++ map fut_value (in_flight s ++ result_queue_ s))%list.

(** The completion of a given task is not among the events. *)
Fixpoint never_completes (id : nat) (evs : list event) : Prop :=
  match evs with
  | [] => True
  | Complete id' :: evs' => id' <> id /\ never_completes id evs'
  | _ :: evs' => never_completes id evs'
  end.

(** Whether [run] is called during a trace. *)
Fixpoint calls_run (evs : list event) : bool :=
  match evs with
  | [] => false
  | RunCall _ _ :: _ => true
  | _ :: evs' => calls_run evs'
  end.

(** The host and port the endpoint was created with. *)
Definition endpoint_address (s : system) : option (string * Z) :=
  option_map (fun ep => (ep_host ep, ep_port ep)) (rest_endpoint_ s).

(** What ties [manager_ptr_] to the activity of [run]; [ran] tells whether
    [run] has been called before. *)
Definition run_invariant (ran : bool) (s : system) : Prop :=
  match owner s with
  | InsideRun =>
      ran = true /\ (exists manager, manager_ptr_ s = ref manager) /\
      rest_endpoint_ s <> None
  | OutsideRun => manager_ptr_ s = if ran then nullptr else indeterminate
  end.

(** The outcome the handler is bound to wait for next, whatever the flag
    says: the one it is waiting for, or the head of the queue once it has
    passed the loop test. *)
Definition committed (s : system) : option future :=
  match response_handler_ s with
  | AtWait fut => Some fut
  | AtEmpty | AtTryPop => head (result_queue_ s)
  | AtWhile | Sleeping | Finished => None
  end.

(** [fut.wait()] on a deferred outcome runs its task, the bound
    [commandHandler], on the waiting thread, which has defined behaviour only
    while [manager_ptr_] refers to a manager.  The task of an asynchronous
    outcome runs elsewhere. *)
Definition wait_defined (fut : future) (s : system) : Prop :=
  fut_launch fut = deferred -> exists manager, manager_ptr_ s = ref manager.

End Facility.

(** A concrete set of collaborators for closed examples: a command is its own
    text, the empty text does not parse, and a manager is given by what its
    [execute] does with each command. *)
Definition scripted : Collaborators :=
  {| object_t := string;
     object_parse := fun text =>
       if String.eqb text "" then Throw (std_exception (runtime_failure "parse error"))
       else Return text;
     DAQModuleManager := string -> outcome unit;
     execute := fun manager command => manager command |}.

(** The state of a facility built from "rest://ep1@localhost:12345" once
    [run] has been entered with a given manager of the scripted
    collaborators, for closed examples. *)
Definition serving (manager : @DAQModuleManager scripted) : @system scripted :=
  @Build_system scripted
    0 (ref manager)
    (Some {| ep_host := "localhost"; ep_port := 12345; ep_policy := deferred;
             ep_threads := 1; ep_listening := true |})
    [] deferred AtWhile InsideRun []
    [info_endpoint "ep1" "localhost" "12345"; info_protocol "rest"].

(** Two pending outcomes launched asynchronously, for closed examples. *)
Definition first_outcome : future :=
  {| fut_id := 1; fut_launch := async;
     fut_value := {| answer_addr_ := "client1"; answer_port_ := 5001;
                     result_ := "OK" |} |}.

Definition second_outcome : future :=
  {| fut_id := 2; fut_launch := async;
     fut_value := {| answer_addr_ := "client2"; answer_port_ := 5002;
                     result_ := "OK" |} |}.

(** The two outcomes as the facility's own policy launches them. *)
Definition first_deferred : future :=
  {| fut_id := 1; fut_launch := deferred; fut_value := fut_value first_outcome |}.

Definition second_deferred : future :=
  {| fut_id := 2; fut_launch := deferred; fut_value := fut_value second_outcome |}.

(** The state of that facility when a signal arrives while two deferred
    outcomes are queued and the response handler is about to pop, for closed
    examples. *)
Definition stopping : @system scripted :=
  @Build_system scripted
    3 indeterminate
    (Some {| ep_host := "localhost"; ep_port := 12345; ep_policy := deferred;
             ep_threads := 1; ep_listening := false |})
    [first_deferred; second_deferred]
    deferred AtTryPop OutsideRun []
    [info_endpoint "ep1" "localhost" "12345"; info_protocol "rest"; info_signal 3].

(** An interleaving in which the second outcome completes before the first:
    both are pushed, the handler pops the first and waits, the second
    completes, then the first. *)
Definition out_of_order_trace : list (@event scripted) :=
  [Push first_outcome; Push second_outcome; Handler; Handler; Handler;
   Complete 2%nat; Handler; Handler; Complete 1%nat; Handler;
   Handler; Handler; Handler; Handler].

(** [run] is entered, a signal arrives and [run] returns. *)
Definition served_and_stopped : list (@event scripted) :=
  [@RunCall scripted (fun _ : string => Return tt) None; Signal SIGQUIT; RunPoll].

(** ** The factory function and what a trace shows *)

Section Observations.

Context `{Collaborators}.

(** [make(uri)] (lines 163-167): a shared pointer to a new facility; an
    exception of the constructor leaves [make] unchanged. *)
Definition make (uri : string) : outcome system := restCommandFacility uri.

(** The signals delivered during a trace, in order of delivery. *)
Fixpoint signals (evs : list event) : list signum :=
  match evs with
  | [] => []
  | Signal sg :: evs' => sg :: signals evs'
  | _ :: evs' => signals evs'
  end.

(** The signal numbers [sigHandler] has written to the ERS output. *)
Fixpoint signal_lines (l : list ers_entry) : list Z :=
  match l with
  | [] => []
  | info_signal n :: l' => n :: signal_lines l'
  | _ :: l' => signal_lines l'
  end.

(** The issues reported through [ers::error]. *)
Fixpoint reported (l : list ers_entry) : list exception :=
  match l with
  | [] => []
  | error_issue e :: l' => e :: reported l'
  | _ :: l' => reported l'
  end.

End Observations.

(** Both deferred outcomes are pushed while nothing else happens. *)
Definition two_pushes : list (@event scripted) :=
  [Push first_deferred; Push second_deferred].

(** The handler pops the first asynchronous outcome and waits for it; a
    signal arrives and the second outcome completes, the first never does. *)
Definition stuck_trace : list (@event scripted) :=
  [Push first_outcome; Push second_outcome; Handler; Handler; Handler].

Definition while_stuck : list (@event scripted) :=
  [Signal SIGQUIT; Complete 2%nat; Handler; Signal SIGABRT; Handler].

(** [run] is entered, two deferred outcomes are pushed, the handler passes
    its loop test and its queue test, and a signal arrives. *)
Definition stop_while_serving : list (@event scripted) :=
  [@RunCall scripted (fun _ : string => Return tt) None;
   Push first_deferred; Push second_deferred; Handler; Handler; Signal SIGQUIT].

(** * Properties *)

(** ** The reference inputs, evaluated *)

Example parse_uri_reference :
  parse_uri "rest://ep1@localhost:12345"
  = Return {| scheme := "rest"; iname := "ep1@localhost:12345";
              portstr := "12345"; epname := "ep1"; hostname := "localhost" |}.
Proof. vm_compute. reflexivity. Qed.

Example stoi_examples :
  stoi "12345" = Return 12345 /\ stoi " +80x" = Return 80 /\
  stoi "//ep1" = Throw (std_exception (invalid_argument "stoi")) /\
  stoi "99999999999" = Throw (std_exception (out_of_range "stoi")).
Proof. vm_compute. repeat split; reflexivity. Qed.

(** The states used in the closed examples are reached from the
    constructor. *)
Example serving_is_reached (manager : @DAQModuleManager scripted) :
  exists s0,
    @restCommandFacility scripted "rest://ep1@localhost:12345" = Return s0 /\
    exec [@RunCall scripted manager None] s0 = Some (serving manager).
Proof. eexists. split; vm_compute; reflexivity. Qed.

Example stopping_is_reached :
  exists s0,
    @restCommandFacility scripted "rest://ep1@localhost:12345" = Return s0 /\
    exec [Push first_deferred; Push second_deferred; Handler; Handler;
          Signal SIGQUIT] s0 = Some stopping.
Proof. eexists. split; vm_compute; reflexivity. Qed.

(** ** Facts about the string operations *)

Section StringFacts.

Lemma wrap_small z : 0 <= z < 2 ^ 64 -> wrap z = z.
Proof. intros Hz. unfold wrap. apply Z.mod_small. exact Hz. Qed.

Lemma length_drop n s : String.length (drop n s) = (String.length s - n)%nat.
Proof.
  revert s. induction n as [|n IH]; intros [|c s]; simpl; try reflexivity.
  apply IH.
Qed.

Lemma take_all n s : (String.length s <= n)%nat -> take n s = s.
Proof.
  revert s. induction n as [|n IH]; intros [|c s] Hn; simpl in *;
    try reflexivity; try lia.
  f_equal. apply IH. lia.
Qed.

Lemma take_zero s : take 0 s = "".
Proof. destruct s; reflexivity. Qed.

Lemma drop_zero s : drop 0 s = s.
Proof. destruct s; reflexivity. Qed.

Lemma length_app (a b : string) :
  String.length (a ++ b) = (String.length a + String.length b)%nat.
Proof. induction a as [|c a IH]; simpl; [reflexivity | now rewrite IH]. Qed.

Lemma take_app_exact (a b : string) : take (String.length a) (a ++ b) = a.
Proof.
  induction a as [|c a IH]; [apply take_zero | simpl; now rewrite IH].
Qed.

Lemma drop_app_plus (a b : string) n :
  drop (String.length a + n) (a ++ b) = drop n b.
Proof. induction a as [|c a IH]; simpl; [reflexivity | exact IH]. Qed.

Lemma first_index_bound c s n :
  first_index c s = Some n -> (n < String.length s)%nat.
Proof.
  revert n. induction s as [|a s IH]; simpl; intros n Hn; [discriminate|].
  destruct (Ascii.eqb a c).
  - injection Hn as <-. lia.
  - destruct (first_index c s) as [k|]; simpl in Hn; [|discriminate].
    injection Hn as <-. specialize (IH k eq_refl). lia.
Qed.

Lemma first_index_app c (a b : string) :
  first_index c a = None ->
  first_index c (a ++ b) = option_map (Nat.add (String.length a)) (first_index c b).
Proof.
  induction a as [|x a IH]; simpl; intros Ha.
  - now destruct (first_index c b).
  - destruct (Ascii.eqb x c); [discriminate|].
    destruct (first_index c a); [discriminate|].
    rewrite (IH eq_refl). now destruct (first_index c b).
Qed.

Lemma last_index_bound c s n :
  last_index c s = Some n -> (n < String.length s)%nat.
Proof.
  revert n. induction s as [|a s IH]; simpl; intros n Hn; [discriminate|].
  destruct (last_index c s) as [k|].
  - injection Hn as <-. specialize (IH k eq_refl). lia.
  - destruct (Ascii.eqb a c); [|discriminate]. injection Hn as <-. lia.
Qed.

Lemma last_index_app_some c (a b : string) n :
  last_index c b = Some n ->
  last_index c (a ++ b) = Some (String.length a + n)%nat.
Proof.
  intros Hb. induction a as [|x a IH]; simpl; [exact Hb|].
  now rewrite IH.
Qed.

Lemma last_index_head c s : last_index c (String c s) <> None.
Proof.
  simpl. destruct (last_index c s); [discriminate|].
  rewrite (Ascii.eqb_refl c). discriminate.
Qed.

Lemma first_occurrence_bound pat s n :
  first_occurrence pat s = Some n ->
  (n + String.length pat <= String.length s)%nat.
Proof.
  revert n. induction s as [|a s IH]; intros n Hn.
  - destruct pat; simpl in Hn; [|discriminate]. injection Hn as <-. simpl. lia.
  - cbn [first_occurrence] in Hn.
    destruct (starts_with pat (String a s)) eqn:Hp.
    + injection Hn as <-. clear IH. revert Hp.
      generalize (String a s) as t. induction pat as [|p pat IHp]; intros t Ht.
      * simpl. lia.
      * destruct t as [|b t]; simpl in Ht; [discriminate|].
        apply andb_true_iff in Ht as [_ Ht]. specialize (IHp t Ht).
        simpl in *. lia.
    + destruct (first_occurrence pat s) as [k|]; simpl in Hn; [|discriminate].
      injection Hn as <-. specialize (IH k eq_refl). simpl. lia.
Qed.

(** The "://" of a string is found where it was appended, provided none
    occurs earlier. *)
Lemma first_occurrence_separator (a rest : string) :
  first_occurrence "://" a = None ->
  first_occurrence "://" (a ++ "://" ++ rest) = Some (String.length a).
Proof.
  induction a as [|x a IH]; intros Ha.
  - reflexivity.
  - cbn [first_occurrence] in Ha.
    destruct (starts_with "://" (String x a)) eqn:Hp; [discriminate|].
    destruct (first_occurrence "://" a) eqn:Hrec; [discriminate|].
    specialize (IH eq_refl).
    change (String x a ++ "://" ++ rest) with (String x (a ++ "://" ++ rest)).
    cbn [first_occurrence]. rewrite IH.
    assert (Hq : starts_with "://" (String x (a ++ "://" ++ rest)) = false).
    { destruct a as [|y [|z a]]; cbn [starts_with append] in Hp |- *.
      - destruct (Ascii.eqb ":" x); reflexivity.
      - destruct (Ascii.eqb ":" x); [|reflexivity].
        destruct (Ascii.eqb "/" y); reflexivity.
      - exact Hp. }
    rewrite Hq. reflexivity.
Qed.

(** A string that contains "://" contains a ':' at or after it. *)
Lemma separator_has_colon s n :
  first_occurrence "://" s = Some n ->
  exists c, last_index ":" s = Some c /\ (n <= c)%nat.
Proof.
  revert n. induction s as [|a s IH]; intros n Hn; [discriminate|].
  cbn [first_occurrence] in Hn.
  destruct (starts_with "://" (String a s)) eqn:Hp.
  - injection Hn as <-. cbn [starts_with] in Hp.
    apply andb_true_iff in Hp as [Ha _].
    apply Ascii.eqb_eq in Ha. subst a.
    destruct (last_index ":" (String ":" s)) as [c|] eqn:Hc.
    + exists c. split; [reflexivity | lia].
    + now apply last_index_head in Hc.
  - destruct (first_occurrence "://" s) as [k|]; simpl in Hn; [|discriminate].
    injection Hn as <-. destruct (IH k eq_refl) as (c & Hc & Hle).
    exists (S c). simpl. rewrite Hc. split; [reflexivity | lia].
Qed.

Lemma no_colon_no_separator s :
  last_index ":" s = None -> first_occurrence "://" s = None.
Proof.
  intros Hc. destruct (first_occurrence "://" s) as [n|] eqn:Hn; [|reflexivity].
  destruct (separator_has_colon _ _ Hn) as (c & Hc' & _). congruence.
Qed.

(** *** Decimal numerals and [std::stoi] *)

Lemma digit_of_digit_char d :
  (d < 10)%nat -> digit (digit_char d) = Some (Z.of_nat d).
Proof.
  intros Hd. do 10 (destruct d as [|d]; [reflexivity|]). lia.
Qed.

Lemma digit_char_plain d :
  (d < 10)%nat ->
  isspace (digit_char d) = false /\
  Ascii.eqb (digit_char d) ":" = false /\
  Ascii.eqb (digit_char d) "-" = false /\
  Ascii.eqb (digit_char d) "+" = false.
Proof.
  intros Hd. do 10 (destruct d as [|d]; [repeat split; reflexivity|]). lia.
Qed.

Lemma digits_value_text ds :
  Forall (fun d => (d < 10)%nat) ds ->
  forall acc,
    digits_value (digits_text ds) acc
    = fold_left (fun a d => 10 * a + Z.of_nat d) ds acc.
Proof.
  induction 1 as [|d ds Hd _ IH]; intros acc; [reflexivity|].
  cbn [digits_text digits_value fold_left].
  rewrite (digit_of_digit_char d Hd). apply IH.
Qed.

Lemma digits_text_no_colon ds :
  Forall (fun d => (d < 10)%nat) ds -> last_index ":" (digits_text ds) = None.
Proof.
  induction 1 as [|d ds Hd _ IH]; [reflexivity|].
  cbn [digits_text last_index]. rewrite IH.
  destruct (digit_char_plain d Hd) as (_ & Hc & _). now rewrite Hc.
Qed.

(** [std::stoi] reads a decimal numeral as the number it stands for. *)
Lemma stoi_digits_text ds :
  ds <> [] -> Forall (fun d => (d < 10)%nat) ds ->
  stoi (digits_text ds)
  = if (INT_MIN <=? digits_number ds) && (digits_number ds <=? INT_MAX)
    then Return (digits_number ds)
    else Throw (std_exception (out_of_range "stoi")).
Proof.
  intros Hne Hall. destruct ds as [|d ds]; [congruence|].
  pose proof (digits_value_text (d :: ds) Hall 0) as Hv.
  fold (digits_number (d :: ds)) in Hv.
  inversion Hall as [|? ? Hd Hds]; subst.
  destruct (digit_char_plain d Hd) as (Hsp & _ & Hminus & Hplus).
  unfold stoi. cbn [digits_text skip_spaces]. rewrite Hsp.
  assert (Hsign :
            match String (digit_char d) (digits_text ds) with
            | String "-"%char r => (true, r)
            | String "+"%char r => (false, r)
            | _ => (false, String (digit_char d) (digits_text ds))
            end = (false, String (digit_char d) (digits_text ds))).
  { clear - Hd. do 10 (destruct d as [|d]; [reflexivity|]). lia. }
  rewrite Hsign. cbn [starts_with_digit].
  rewrite (digit_of_digit_char d Hd).
  change (String (digit_char d) (digits_text ds)) with (digits_text (d :: ds)).
  rewrite Hv. reflexivity.
Qed.

End StringFacts.

(** ** Facts about the URI parsing *)

Section ParseFacts.

Lemma npos_value : npos = 18446744073709551615.
Proof. reflexivity. Qed.

Lemma substr_in_range s pos count :
  0 <= pos <= size s ->
  substr s pos count
  = Return (take (Z.to_nat (Z.min count (size s - pos))) (drop (Z.to_nat pos) s)).
Proof.
  intros Hpos. unfold substr.
  destruct (size s <? pos) eqn:Hlt; [apply Z.ltb_lt in Hlt; lia | reflexivity].
Qed.

(** [substr(pos)] with the default count is the rest of the string. *)
Lemma substr_rest s (pos : nat) :
  size s < npos -> (pos <= String.length s)%nat ->
  substr s (Z.of_nat pos) npos = Return (drop pos s).
Proof.
  intros Hsz Hpos. rewrite substr_in_range by (unfold size; lia).
  rewrite Nat2Z.id. f_equal. apply take_all. rewrite length_drop.
  unfold size in *. lia.
Qed.

(** [at + 1] as the code computes it: 0 when there is no '@'. *)
Lemma wrap_after_at uri :
  size uri < npos ->
  wrap (find_char uri "@" + 1)
  = match first_index "@" uri with
    | Some a => Z.of_nat a + 1
    | None => 0
    end.
Proof.
  intros Hsz. unfold find_char, position.
  destruct (first_index "@" uri) as [a|] eqn:Ha; [|reflexivity].
  apply first_index_bound in Ha. apply wrap_small.
  rewrite npos_value in Hsz. unfold size in Hsz. lia.
Qed.

(** The constructor's cuts, for every string the check lets through. *)
Lemma parse_uri_accepts uri (sep col : nat) :
  size uri < npos ->
  first_occurrence "://" uri = Some sep ->
  last_index ":" uri = Some col ->
  let at_ := find_char uri "@" in
  let after_sep := Z.of_nat sep + 3 in
  let after_at := wrap (at_ + 1) in
  parse_uri uri
  = Return
      {| scheme := take sep uri;
         iname := drop (sep + 3) uri;
         portstr := drop (col + 1) uri;
         epname :=
           take (Z.to_nat (Z.min (wrap (at_ - after_sep)) (size uri - after_sep)))
                (drop (sep + 3) uri);
         hostname :=
           take (Z.to_nat (Z.min (wrap (Z.of_nat col - after_at))
                                 (size uri - after_at)))
                (drop (Z.to_nat after_at) uri) |}.
Proof.
  intros Hsz Hsep Hcol at_ after_sep after_at.
  pose proof (first_occurrence_bound _ _ _ Hsep) as Hsb.
  pose proof (last_index_bound _ _ _ Hcol) as Hcb.
  change (String.length "://") with 3%nat in Hsb.
  assert (Hsz' : size uri < 18446744073709551615) by (now rewrite <- npos_value).
  assert (Hlen : size uri = Z.of_nat (String.length uri)) by reflexivity.
  assert (Hat : 0 <= after_at <= size uri).
  { unfold after_at, at_. rewrite wrap_after_at by exact Hsz.
    destruct (first_index "@" uri) as [a|] eqn:Ha; [|lia].
    apply first_index_bound in Ha. lia. }
  unfold parse_uri, find, find_last_of. rewrite Hsep, Hcol. cbn [position].
  replace ((Z.of_nat col =? npos) || (Z.of_nat sep =? npos)) with false.
  2:{ symmetry. apply orb_false_iff. rewrite npos_value.
      split; apply Z.eqb_neq; lia. }
  rewrite (wrap_small (Z.of_nat sep + 3)) by lia.
  rewrite (wrap_small (Z.of_nat col + 1)) by lia.
  fold at_. fold after_at. fold after_sep.
  rewrite (substr_in_range uri 0) by lia.
  replace after_sep with (Z.of_nat (sep + 3)) by (unfold after_sep; lia).
  replace (Z.of_nat col + 1) with (Z.of_nat (col + 1)) by lia.
  rewrite !substr_rest by (try assumption; lia).
  rewrite (substr_in_range uri (Z.of_nat (sep + 3))) by lia.
  rewrite (substr_in_range uri after_at) by exact Hat.
  cbn [bind]. rewrite Nat2Z.id. do 2 f_equal.
  change (Z.to_nat 0) with 0%nat. rewrite drop_zero. f_equal. lia.
Qed.

(** The check at line 109 rejects exactly the strings without "://". *)
Lemma parse_uri_rejects uri :
  first_occurrence "://" uri = None ->
  parse_uri uri = Throw (std_exception (UnsupportedUri uri)).
Proof.
  intros Hsep. unfold parse_uri, find. rewrite Hsep. cbn [position].
  rewrite Z.eqb_refl, orb_true_r. reflexivity.
Qed.

Lemma parse_uri_total uri :
  size uri < npos -> first_occurrence "://" uri <> None ->
  exists parts, parse_uri uri = Return parts.
Proof.
  intros Hsz Hsep.
  destruct (first_occurrence "://" uri) as [sep|] eqn:Hs; [|congruence].
  destruct (separator_has_colon _ _ Hs) as (col & Hcol & _).
  eexists. apply (parse_uri_accepts uri sep col Hsz Hs Hcol).
Qed.

End ParseFacts.

(** ** The constructor *)

Section ConstructorFacts.

Context `{Collaborators}.

Lemma append_assoc (a b c : string) : (a ++ b) ++ c = a ++ b ++ c.
Proof. induction a as [|x a IH]; simpl; [reflexivity | now rewrite IH]. Qed.

Lemma first_index_app_none ch (a b : string) :
  first_index ch a = None -> first_index ch b = None ->
  first_index ch (a ++ b) = None.
Proof. intros Ha Hb. rewrite (first_index_app _ _ _ Ha), Hb. reflexivity. Qed.

(** Nothing in the constructor's [try] block throws anything but a
    [std::exception]. *)
Lemma setup_endpoint_cases parts policy :
  match stoi (portstr parts) with
  | Return n =>
      if (1 <=? n) && (n <=? 65535)
      then setup_endpoint parts policy
           = Return (ep_init 1 (make_endpoint (hostname parts) n policy))
      else setup_endpoint parts policy = Throw (std_exception (InvalidPort n))
  | Throw t =>
      setup_endpoint parts policy = Throw t /\
      (t = std_exception (invalid_argument "stoi") \/
       t = std_exception (out_of_range "stoi"))
  end.
Proof.
  unfold setup_endpoint.
  destruct (stoi (portstr parts)) as [n|t] eqn:Hn; cbn [bind].
  - unfold portNumber. destruct ((1 <=? n) && (n <=? 65535)); reflexivity.
  - split; [reflexivity|]. unfold stoi in Hn.
    destruct (skip_spaces (portstr parts)) as [|c r];
      [cbn in Hn; injection Hn as <-; now left|].
    repeat match type of Hn with
           | context [match ?x with _ => _ end] => destruct x
           end;
      first [ discriminate Hn | injection Hn as <-; auto ].
Qed.

(** The constructor returns an object for every string that passes the
    check at line 109. *)
Lemma constructor_returns uri parts :
  parse_uri uri = Return parts ->
  exists s, restCommandFacility uri = Return s /\
            global_signal s = 0 /\ manager_ptr_ s = indeterminate /\
            result_queue_ s = [] /\ response_handler_ s = AtWhile /\
            owner s = OutsideRun /\ answers (ers s) = [] /\
            match setup_endpoint parts deferred with
            | Return ep => rest_endpoint_ s = Some ep
            | Throw _ => rest_endpoint_ s = None
            end.
Proof.
  intros Hp. unfold restCommandFacility. rewrite Hp. cbn [bind policy_].
  pose proof (setup_endpoint_cases parts deferred) as Hc.
  destruct (stoi (portstr parts)) as [n|t].
  - destruct ((1 <=? n) && (n <=? 65535)); rewrite Hc;
      eexists; repeat split; reflexivity.
  - destruct Hc as [-> [-> | ->]]; eexists; repeat split; reflexivity.
Qed.

End ConstructorFacts.

(** ** Construction from a configuration URI *)

(** C8 (amended): a configuration string without "://", and so every string
    without any ':', makes the constructor throw [UnsupportedUri] (the spec's
    InvalidUri); every string that does contain "://" passes the check, also
    when no ':' follows the separator to introduce a port, and the
    constructor returns an object. *)
Theorem uri_check_rejects_missing_separator {C : Collaborators} (uri : string) :
  size uri < npos ->
  (first_occurrence "://" uri = None ->
   restCommandFacility uri = Throw (std_exception (UnsupportedUri uri))) /\
  (last_index ":" uri = None ->
   restCommandFacility uri = Throw (std_exception (UnsupportedUri uri))) /\
  (forall sep, first_occurrence "://" uri = Some sep ->
   exists s, restCommandFacility uri = Return s).
Proof.
  intros Hsz.
  assert (Hrej : first_occurrence "://" uri = None ->
                 restCommandFacility uri = Throw (std_exception (UnsupportedUri uri))).
  { intros Hsep. unfold restCommandFacility.
    rewrite (parse_uri_rejects uri Hsep). reflexivity. }
  split; [exact Hrej | split].
  - intros Hcol. apply Hrej, no_colon_no_separator, Hcol.
  - intros sep Hsep.
    destruct (parse_uri_total uri Hsz) as [parts Hp]; [congruence|].
    destruct (constructor_returns uri parts Hp) as (s & Hs & _).
    exists s. exact Hs.
Qed.

Lemma uri_check_rejects_missing_separator_witness :
  size "ep1@localhost:12345" < npos /\
  first_occurrence "://" "ep1@localhost:12345" = None /\
  @restCommandFacility scripted "ep1@localhost:12345"
  = Throw (std_exception (UnsupportedUri "ep1@localhost:12345")).
Proof.
  split; [reflexivity | split; [reflexivity|]].
  apply (proj1 (@uri_check_rejects_missing_separator scripted
                  "ep1@localhost:12345" eq_refl)).
  reflexivity.
Defined.

(** C8, as stated, fails: "rest://ep1@localhost" has no ':' introducing a
    port (its only ':' is the one of "://"), and the constructor returns. *)
Lemma uri_without_port_is_constructed :
  first_occurrence "://" "rest://ep1@localhost" = Some 4%nat /\
  last_index ":" "rest://ep1@localhost" = Some 4%nat /\
  exists s, @restCommandFacility scripted "rest://ep1@localhost" = Return s /\
            rest_endpoint_ s = None.
Proof.
  split; [reflexivity | split; [reflexivity|]].
  eexists. split; vm_compute; reflexivity.
Qed.

(** X17: the constructor never tests the position [find('@')] returns.
    For a URI that contains "://" and no '@' at all, [at] is [npos], [at+1]
    wraps around to 0 and both cuts succeed: the name is everything after
    "://", the host is everything before the last ':', scheme and separator
    included, and the constructor returns an object. *)
Theorem uri_without_at_is_accepted {C : Collaborators} (uri : string) (sep : nat) :
  size uri < npos ->
  first_occurrence "://" uri = Some sep ->
  first_index "@" uri = None ->
  exists col s,
    last_index ":" uri = Some col /\
    parse_uri uri
    = Return {| scheme := take sep uri;
                iname := drop (sep + 3) uri;
                portstr := drop (col + 1) uri;
                epname := drop (sep + 3) uri;
                hostname := take col uri |} /\
    restCommandFacility uri = Return s.
Proof.
  intros Hsz Hsep Hat.
  destruct (separator_has_colon _ _ Hsep) as (col & Hcol & Hle).
  pose proof (parse_uri_accepts uri sep col Hsz Hsep Hcol) as Hp.
  pose proof (first_occurrence_bound _ _ _ Hsep) as Hsb.
  pose proof (last_index_bound _ _ _ Hcol) as Hcb.
  change (String.length "://") with 3%nat in Hsb.
  cbv zeta in Hp. rewrite (wrap_after_at uri Hsz) in Hp.
  unfold find_char in Hp. rewrite Hat in Hp. cbn [position] in Hp.
  assert (Hsz' : size uri < 18446744073709551615) by (now rewrite <- npos_value).
  assert (Hlen : size uri = Z.of_nat (String.length uri)) by reflexivity.
  rewrite (wrap_small (npos - (Z.of_nat sep + 3))) in Hp
    by (rewrite npos_value; lia).
  rewrite Z.sub_0_r, (wrap_small (Z.of_nat col)) in Hp by lia.
  rewrite (Z.min_r (npos - (Z.of_nat sep + 3))) in Hp by (rewrite npos_value; lia).
  rewrite (Z.min_l (Z.of_nat col)) in Hp by lia.
  rewrite Nat2Z.id in Hp. change (Z.to_nat 0) with 0%nat in Hp.
  rewrite drop_zero in Hp.
  rewrite (take_all _ (drop (sep + 3) uri)) in Hp by (rewrite length_drop; lia).
  destruct (constructor_returns uri _ Hp) as (s & Hs & _).
  exists col, s. repeat split; assumption.
Qed.

Lemma uri_without_at_is_accepted_witness :
  exists col s,
    last_index ":" "rest://localhost:12345" = Some col /\
    parse_uri "rest://localhost:12345"
    = Return {| scheme := take 4 "rest://localhost:12345";
                iname := drop (4 + 3) "rest://localhost:12345";
                portstr := drop (col + 1) "rest://localhost:12345";
                epname := drop (4 + 3) "rest://localhost:12345";
                hostname := take col "rest://localhost:12345" |} /\
    @restCommandFacility scripted "rest://localhost:12345" = Return s.
Proof.
  apply (@uri_without_at_is_accepted scripted "rest://localhost:12345" 4);
    reflexivity.
Defined.

(** C4: the constructor does not reject a URI that lacks an '@' between the
    scheme separator and the port separator.  "rest://localhost:12345" has
    no '@' at all and "a@b://h:1" has its only '@' before "://"; both are
    constructed, with an endpoint bound to a host that holds the scheme and
    the separator. *)
Lemma uri_without_at_is_constructed :
  (first_index "@" "rest://localhost:12345" = None /\
   exists s, @restCommandFacility scripted "rest://localhost:12345" = Return s /\
             rest_endpoint_ s
             = Some {| ep_host := "rest://localhost"; ep_port := 12345;
                       ep_policy := deferred; ep_threads := 1;
                       ep_listening := false |}) /\
  (first_index "@" "a@b://h:1" = Some 1%nat /\
   first_occurrence "://" "a@b://h:1" = Some 3%nat /\
   exists s, @restCommandFacility scripted "a@b://h:1" = Return s /\
             rest_endpoint_ s
             = Some {| ep_host := "b://h"; ep_port := 1;
                       ep_policy := deferred; ep_threads := 1;
                       ep_listening := false |}).
Proof.
  split.
  - split; [reflexivity|]. eexists. split; vm_compute; reflexivity.
  - split; [reflexivity|]. split; [reflexivity|].
    eexists. split; vm_compute; reflexivity.
Qed.

(** C3 (amended): when the text after the last ':' of an accepted URI does
    not convert to an integer in [1, 65535], the constructor does not throw:
    it catches the failure ([std::invalid_argument] or [std::out_of_range]
    from the conversion, [InvalidPort] from the validator), reports it
    through [ers::error] wrapped in [UnsupportedUri], leaves the endpoint
    unset and returns the object. *)
Theorem bad_port_is_reported_not_raised {C : Collaborators}
        (uri : string) (sep col : nat) :
  size uri < npos ->
  first_occurrence "://" uri = Some sep ->
  last_index ":" uri = Some col ->
  (forall p, stoi (drop (col + 1) uri) = Return p -> ~ 1 <= p <= 65535) ->
  exists s e,
    restCommandFacility uri = Return s /\
    rest_endpoint_ s = None /\
    In (error_issue (UnsupportedUri (what e))) (ers s) /\
    (e = invalid_argument "stoi" \/ e = out_of_range "stoi" \/
     exists p, stoi (drop (col + 1) uri) = Return p /\ e = InvalidPort p).
Proof.
  intros Hsz Hsep Hcol Hbad.
  pose proof (parse_uri_accepts uri sep col Hsz Hsep Hcol) as Hp. cbv zeta in Hp.
  unfold restCommandFacility. rewrite Hp. cbn [bind policy_].
  match goal with
  | |- context [setup_endpoint ?parts deferred] =>
      pose proof (setup_endpoint_cases parts deferred) as Hc; cbn [portstr] in Hc
  end.
  destruct (stoi (drop (col + 1) uri)) as [n|t] eqn:Hn.
  - destruct ((1 <=? n) && (n <=? 65535)) eqn:Hr.
    + exfalso. apply (Hbad n eq_refl).
      apply andb_true_iff in Hr as [H1 H2].
      apply Z.leb_le in H1. apply Z.leb_le in H2. lia.
    + rewrite Hc. eexists. exists (InvalidPort n).
      split; [reflexivity|]. split; [reflexivity|]. split.
      * cbn. right. right. left. reflexivity.
      * right. right. exists n. split; reflexivity.
  - destruct Hc as [-> [-> | ->]]; eexists.
    + exists (invalid_argument "stoi").
      split; [reflexivity|]. split; [reflexivity|]. split.
      * cbn. right. right. left. reflexivity.
      * left. reflexivity.
    + exists (out_of_range "stoi").
      split; [reflexivity|]. split; [reflexivity|]. split.
      * cbn. right. right. left. reflexivity.
      * right. left. reflexivity.
Qed.

Lemma bad_port_is_reported_not_raised_witness :
  exists s e,
    @restCommandFacility scripted "rest://ep1@localhost:70000" = Return s /\
    rest_endpoint_ s = None /\
    In (error_issue (UnsupportedUri (what e))) (ers s) /\
    (e = invalid_argument "stoi" \/ e = out_of_range "stoi" \/
     exists p, stoi (drop (20 + 1) "rest://ep1@localhost:70000") = Return p /\
               e = InvalidPort p).
Proof.
  apply (@bad_port_is_reported_not_raised scripted
           "rest://ep1@localhost:70000" 4 20);
    try reflexivity.
  intros p Hp. vm_compute in Hp. injection Hp as <-. lia.
Defined.

(** C3, as stated, fails: with a port text that is not a number, or that
    names an integer above 65535, the constructor still returns an object;
    no [InvalidPort] leaves it. *)
Lemma bad_port_is_constructed :
  (stoi "abc" = Throw (std_exception (invalid_argument "stoi")) /\
   exists s, @restCommandFacility scripted "rest://ep1@localhost:abc" = Return s) /\
  (stoi "70000" = Return 70000 /\
   exists s, @restCommandFacility scripted "rest://ep1@localhost:70000" = Return s).
Proof.
  split; (split; [reflexivity|]); eexists; vm_compute; reflexivity.
Qed.

(** The cut of [scheme://name@host:port] for any port text that [std::stoi]
    converts to an accepted port. *)
Lemma uri_fields_split_stoi {C : Collaborators}
        (scheme_ name_ host_ port_ : string) (p : Z) :
  let uri := scheme_ ++ "://" ++ name_ ++ "@" ++ host_ ++ ":" ++ port_ in
  size uri < npos ->
  first_occurrence "://" scheme_ = None ->
  first_index "@" scheme_ = None ->
  first_index "@" name_ = None ->
  last_index ":" port_ = None ->
  stoi port_ = Return p ->
  1 <= p <= 65535 ->
  parse_uri uri
  = Return {| scheme := scheme_;
              iname := name_ ++ "@" ++ host_ ++ ":" ++ port_;
              portstr := port_;
              epname := name_;
              hostname := host_ |} /\
  exists s, restCommandFacility uri = Return s /\
            rest_endpoint_ s
            = Some {| ep_host := host_; ep_port := p; ep_policy := deferred;
                      ep_threads := 1; ep_listening := false |}.
Proof.
  intros uri Hsz Hsch Hsch_at Hname_at Hport Hstoi Hrange.
  set (rest := name_ ++ "@" ++ host_ ++ ":" ++ port_).
  set (a := (String.length scheme_ + 3 + String.length name_)%nat).
  set (c := (a + 1 + String.length host_)%nat).
  assert (Huri2 : uri = (scheme_ ++ "://" ++ name_) ++ "@" ++ host_ ++ ":" ++ port_).
  { unfold uri. now rewrite !append_assoc. }
  assert (Huri3 : uri = (scheme_ ++ "://" ++ name_ ++ "@" ++ host_) ++ ":" ++ port_).
  { unfold uri. now rewrite !append_assoc. }
  assert (Hla : String.length (scheme_ ++ "://" ++ name_) = a).
  { rewrite !length_app. unfold a. simpl. lia. }
  assert (Hlc : String.length (scheme_ ++ "://" ++ name_ ++ "@" ++ host_) = c).
  { rewrite !length_app. unfold c, a. simpl. lia. }
  assert (Hsep : first_occurrence "://" uri = Some (String.length scheme_)).
  { apply first_occurrence_separator, Hsch. }
  assert (Hat : first_index "@" uri = Some a).
  { rewrite Huri2, first_index_app.
    - rewrite Hla. cbn [append first_index].
      rewrite (Ascii.eqb_refl "@"). cbn [option_map].
      now rewrite Nat.add_0_r.
    - apply first_index_app_none; [exact Hsch_at|].
      cbn [append first_index]. cbn. now rewrite Hname_at. }
  assert (Hcol : last_index ":" uri = Some c).
  { rewrite Huri3, (last_index_app_some _ _ _ 0).
    - now rewrite Hlc, Nat.add_0_r.
    - cbn [append last_index]. now rewrite Hport. }
  pose proof (parse_uri_accepts uri _ _ Hsz Hsep Hcol) as Hp. cbv zeta in Hp.
  rewrite (wrap_after_at uri Hsz) in Hp.
  unfold find_char in Hp. rewrite Hat in Hp. cbn [position] in Hp.
  assert (Hsz' : size uri < 18446744073709551615) by (now rewrite <- npos_value).
  assert (Hlen : size uri = Z.of_nat (c + 1 + String.length port_)).
  { unfold size. f_equal. rewrite Huri3, length_app, Hlc. simpl. lia. }
  rewrite (wrap_small (Z.of_nat a - _)) in Hp by (unfold a; lia).
  rewrite (wrap_small (Z.of_nat c - _)) in Hp by (unfold c; lia).
  rewrite Z.min_l in Hp by (rewrite Hlen; unfold c, a; lia).
  rewrite Z.min_l in Hp by (rewrite Hlen; unfold c, a; lia).
  replace (Z.to_nat (Z.of_nat a - (Z.of_nat (String.length scheme_) + 3)))
    with (String.length name_) in Hp by (unfold a; lia).
  replace (Z.to_nat (Z.of_nat c - (Z.of_nat a + 1)))
    with (String.length host_) in Hp by (unfold c; lia).
  replace (Z.to_nat (Z.of_nat a + 1)) with (a + 1)%nat in Hp by lia.
  assert (Hd1 : drop (String.length scheme_ + 3) uri = rest).
  { unfold uri. rewrite drop_app_plus. reflexivity. }
  assert (Hd2 : drop (a + 1) uri = host_ ++ ":" ++ port_).
  { rewrite Huri2, <- Hla, drop_app_plus. reflexivity. }
  assert (Hd3 : drop (c + 1) uri = port_).
  { rewrite Huri3, <- Hlc, drop_app_plus. reflexivity. }
  rewrite Hd1, Hd2, Hd3 in Hp. unfold uri at 2 in Hp. unfold rest in Hp at 2.
  rewrite !take_app_exact in Hp. fold rest in Hp.
  split; [exact Hp|].
  destruct (constructor_returns uri _ Hp) as (s & Hs & _ & _ & _ & _ & _ & _ & He).
  exists s. split; [exact Hs|].
  pose proof (setup_endpoint_cases
                {| scheme := scheme_; iname := rest; portstr := port_;
                   epname := name_; hostname := host_ |} deferred) as Hc.
  cbn [portstr hostname] in Hc. rewrite Hstoi in Hc.
  replace ((1 <=? p) && (p <=? 65535)) with true in Hc.
  2:{ symmetry. apply andb_true_iff. split; apply Z.leb_le; lia. }
  rewrite Hc in He. exact He.
Qed.

(** C6: a configuration string [scheme://name@host:port], split at the
    documented separators (the scheme holds neither "://" nor '@', the name
    holds no '@') and whose port is a decimal numeral for an integer in
    [1, 65535], is cut into exactly these fields: the scheme before "://",
    the name between "://" and '@', the host between '@' and the last ':',
    and the integer after the last ':', which is the port of the endpoint
    the constructor sets up. *)
Theorem uri_fields_split {C : Collaborators}
        (scheme_ name_ host_ : string) (port_digits : list nat) :
  let port_ := digits_text port_digits in
  let p := digits_number port_digits in
  let uri := scheme_ ++ "://" ++ name_ ++ "@" ++ host_ ++ ":" ++ port_ in
  size uri < npos ->
  first_occurrence "://" scheme_ = None ->
  first_index "@" scheme_ = None ->
  first_index "@" name_ = None ->
  port_digits <> [] ->
  Forall (fun d => (d < 10)%nat) port_digits ->
  1 <= p <= 65535 ->
  parse_uri uri
  = Return {| scheme := scheme_;
              iname := name_ ++ "@" ++ host_ ++ ":" ++ port_;
              portstr := port_;
              epname := name_;
              hostname := host_ |} /\
  exists s, restCommandFacility uri = Return s /\
            rest_endpoint_ s
            = Some {| ep_host := host_; ep_port := p; ep_policy := deferred;
                      ep_threads := 1; ep_listening := false |}.
Proof.
  intros port_ p uri Hsz Hsch Hsch_at Hname_at Hne Hdigits Hrange.
  apply uri_fields_split_stoi; try assumption.
  - apply digits_text_no_colon, Hdigits.
  - unfold port_, p. rewrite (stoi_digits_text port_digits Hne Hdigits).
    replace ((INT_MIN <=? digits_number port_digits)
             && (digits_number port_digits <=? INT_MAX)) with true;
      [reflexivity|].
    symmetry. apply andb_true_iff. unfold INT_MIN, INT_MAX, p in *.
    split; apply Z.leb_le; lia.
Qed.

(** The scenario of the specification. *)
Lemma uri_fields_split_witness :
  parse_uri "rest://ep1@localhost:12345"
  = Return {| scheme := "rest";
              iname := "ep1@localhost:12345";
              portstr := "12345";
              epname := "ep1";
              hostname := "localhost" |} /\
  exists s, @restCommandFacility scripted "rest://ep1@localhost:12345" = Return s /\
            rest_endpoint_ s
            = Some {| ep_host := "localhost"; ep_port := 12345;
                      ep_policy := deferred; ep_threads := 1;
                      ep_listening := false |}.
Proof.
  apply (@uri_fields_split scripted "rest" "ep1" "localhost"
           [1; 2; 3; 4; 5]%nat);
    try reflexivity.
  - discriminate.
  - repeat constructor.
  - cbn. lia.
Defined.

(** ** The command callback *)

(** C1 (amended): when the callback is invoked while [manager_ptr_] refers to
    a manager, it returns a [CommandResult] carrying the reply address, with
    result "OK" if decoding and [execute] both return, and with result [M] if
    decoding or [execute] throws a [std::exception] whose message is [M]; no
    such failure leaves the callback.  Only a thrown object that is not a
    [std::exception] passes through the [catch] clause. *)
Theorem commandHandler_converts_failures {C : Collaborators}
        (s : system) (manager : DAQModuleManager)
        (command ansaddr : string) (port : Z) :
  manager_ptr_ s = ref manager ->
  let reply r := {| answer_addr_ := ansaddr; answer_port_ := port; result_ := r |} in
  (forall o u, object_parse command = Return o -> execute manager o = Return u ->
     commandHandler s command ansaddr port = Returns (reply "OK")) /\
  (forall e, object_parse command = Throw (std_exception e) ->
     commandHandler s command ansaddr port = Returns (reply (what e))) /\
  (forall o e, object_parse command = Return o ->
     execute manager o = Throw (std_exception e) ->
     commandHandler s command ansaddr port = Returns (reply (what e))) /\
  ((forall o, object_parse command = Return o ->
      execute manager o <> Throw foreign_object) ->
   object_parse command <> Throw foreign_object ->
   exists rr, commandHandler s command ansaddr port = Returns rr).
Proof.
  intros Hm reply. unfold commandHandler. rewrite Hm.
  repeat split.
  - intros o u Ho Hu. rewrite Ho. cbn [bind]. rewrite Hu. reflexivity.
  - intros e He. rewrite He. reflexivity.
  - intros o e Ho He. rewrite Ho. cbn [bind]. rewrite He. reflexivity.
  - intros Hex Hparse. destruct (object_parse command) as [o|[e|]] eqn:Ho.
    + cbn [bind]. specialize (Hex o eq_refl).
      destruct (execute manager o) as [u|[e|]]; [eexists; reflexivity ..|].
      now contradiction Hex.
    + eexists; reflexivity.
    + now contradiction Hparse.
Qed.

Lemma commandHandler_converts_failures_witness :
  @commandHandler scripted
    (serving (fun _ => Throw (std_exception (runtime_failure "module X not found"))))
    "start" "localhost" 5000
  = Returns {| answer_addr_ := "localhost"; answer_port_ := 5000;
               result_ := "module X not found" |}.
Proof.
  refine (proj1 (proj2 (proj2
           (@commandHandler_converts_failures scripted
              (serving (fun _ => Throw (std_exception (runtime_failure "module X not found"))))
              (fun _ => Throw (std_exception (runtime_failure "module X not found")))
              "start" "localhost" 5000 eq_refl)))
           "start" (runtime_failure "module X not found") eq_refl eq_refl).
Defined.

(** C1, as stated, fails on two kinds of invocation: one made before [run]
    has set [manager_ptr_] has no defined result, and a thrown object that is
    not a [std::exception] leaves the callback. *)
Lemma commandHandler_can_fail_to_return :
  (exists s, @restCommandFacility scripted "rest://ep1@localhost:12345" = Return s /\
             commandHandler s "start" "localhost" 5000 = Undefined) /\
  @commandHandler scripted (serving (fun _ => Throw foreign_object))
    "start" "localhost" 5000
  = Propagates foreign_object.
Proof.
  split; [eexists; split; vm_compute; reflexivity | reflexivity].
Qed.

(** C9 (amended): when the callback returns, its result is "OK" after a
    successful command and exactly the message [M] after a failure with
    message [M].  The result is non-empty unless [M] is empty, and it tells
    success from failure unless [M] is itself "OK". *)
Theorem commandHandler_result_text {C : Collaborators}
        (s : system) (manager : DAQModuleManager)
        (command ansaddr : string) (port : Z) (rr : CommandResult) :
  manager_ptr_ s = ref manager ->
  commandHandler s command ansaddr port = Returns rr ->
  let attempt := (o <- object_parse command ;; execute manager o) in
  ((exists u, attempt = Return u) /\ result_ rr = "OK" \/
   (exists e, attempt = Throw (std_exception e) /\ result_ rr = what e)) /\
  ((forall e, attempt = Throw (std_exception e) -> what e <> "") ->
   result_ rr <> "") /\
  ((forall e, attempt = Throw (std_exception e) -> what e <> "OK") ->
   (result_ rr = "OK" <-> exists u, attempt = Return u)).
Proof.
  intros Hm Hr attempt. unfold commandHandler in Hr. rewrite Hm in Hr.
  fold attempt in Hr.
  destruct attempt as [u|[e|]] eqn:Ha; [| |discriminate Hr];
    injection Hr as <-; cbn [result_ set_result_].
  - split; [left; split; [now exists u | reflexivity]|].
    split; [intros _; discriminate|].
    intros _. split; [intros _; now exists u | reflexivity].
  - split; [right; exists e; split; reflexivity|].
    split; [intros Hne; now apply Hne|].
    intros Hne. split.
    + intros Hok. now contradiction (Hne e eq_refl).
    + intros [u Hu]. discriminate Hu.
Qed.

Lemma commandHandler_result_text_witness :
  let rr := {| answer_addr_ := "localhost"; answer_port_ := 5000; result_ := "OK" |} in
  let attempt := (o <- @object_parse scripted "start" ;;
                  @execute scripted (fun _ => Return tt) o) in
  ((exists u, attempt = Return u) /\ result_ rr = "OK" \/
   (exists e, attempt = Throw (std_exception e) /\ result_ rr = what e)) /\
  ((forall e, attempt = Throw (std_exception e) -> what e <> "") ->
   result_ rr <> "") /\
  ((forall e, attempt = Throw (std_exception e) -> what e <> "OK") ->
   (result_ rr = "OK" <-> exists u, attempt = Return u)).
Proof.
  exact (@commandHandler_result_text scripted (serving (fun _ => Return tt))
           (fun _ => Return tt) "start" "localhost" 5000 _ eq_refl eq_refl).
Defined.

(** C9, as stated, fails: an exception whose message is empty gives the empty
    result, and an exception whose message is "OK" gives the result of a
    success. *)
Lemma commandHandler_result_can_be_empty_or_ambiguous :
  @commandHandler scripted
    (serving (fun _ => Throw (std_exception (runtime_failure ""))))
    "start" "localhost" 5000
  = Returns {| answer_addr_ := "localhost"; answer_port_ := 5000; result_ := "" |} /\
  @commandHandler scripted
    (serving (fun _ => Throw (std_exception (runtime_failure "OK"))))
    "start" "localhost" 5000
  = @commandHandler scripted (serving (fun _ => Return tt))
      "start" "localhost" 5000.
Proof. split; reflexivity. Qed.

(** ** Interleavings of the threads *)

Section TraceFacts.

Context `{Collaborators}.

(** A delivered signal that leaves a state has run [sigHandler]. *)
Lemma signal_delivered sg s s' :
  step (Signal sg) s = Some s' ->
  Some (sigHandler (signal_number sg) s) = Some s'.
Proof. cbn [step]. unfold deliver. now destruct sg. Qed.

Lemma answers_app l1 l2 : answers (l1 ++ l2) = (answers l1 ++ answers l2)%list.
Proof.
  induction l1 as [|e l1 IH]; [reflexivity|].
  destruct e; simpl; now rewrite IH.
Qed.

(** A property kept by every event is kept by every trace. *)
Lemma exec_preserves (P : system -> Prop) :
  (forall ev s s', P s -> step ev s = Some s' -> P s') ->
  forall evs s s', P s -> exec evs s = Some s' -> P s'.
Proof.
  intros Hstep. induction evs as [|ev evs IH]; intros s s' Hs He.
  - injection He as <-. exact Hs.
  - cbn [exec] in He. destruct (step ev s) as [s1|] eqn:H1; [|discriminate].
    exact (IH s1 s' (Hstep ev s s1 Hs H1) He).
Qed.

Lemma pushed_app evs1 evs2 :
  pushed (evs1 ++ evs2) = (pushed evs1 ++ pushed evs2)%list.
Proof.
  induction evs1 as [|e evs1 IH]; [reflexivity|].
  destruct e; cbn [app pushed]; now rewrite ?IH.
Qed.

(** The registered signals have non-zero numbers, so the flag never goes
    back to zero. *)
Lemma signal_stays_set ev s s' :
  global_signal s <> 0 -> step ev s = Some s' -> global_signal s' <> 0.
Proof.
  intros Hg Hs. destruct ev; cbn in Hs.
  - apply (signal_delivered sg s s') in Hs. injection Hs as <-. now destruct sg.
  - injection Hs as <-. exact Hg.
  - injection Hs as <-. exact Hg.
  - injection Hs as <-. unfold responseHandler.
    repeat match goal with
           | |- context [match ?x with _ => _ end] => destruct x
           end; exact Hg.
  - unfold run_enter in Hs.
    repeat match type of Hs with
           | context [match ?x with _ => _ end] => destruct x
           end; try discriminate; injection Hs as <-; exact Hg.
  - unfold run_poll in Hs.
    repeat match type of Hs with
           | context [match ?x with _ => _ end] => destruct x
           end; try discriminate; injection Hs as <-; exact Hg.
Qed.

Lemma step_accounted ev s s' :
  step ev s = Some s' ->
  accounted s' = (accounted s ++ map fut_value (pushed [ev]))%list.
Proof.
  intros Hs. unfold accounted. destruct ev; cbn [pushed map].
  - apply (signal_delivered sg s s') in Hs. injection Hs as <-. cbn. rewrite answers_app. cbn.
    now rewrite !app_nil_r.
  - injection Hs as <-. cbn [step ers in_flight response_handler_ result_queue_
                               with_queue].
    now rewrite !map_app, !app_assoc.
  - injection Hs as <-. cbn. now rewrite app_nil_r.
  - injection Hs as <-. rewrite app_nil_r. unfold responseHandler, in_flight.
    destruct (response_handler_ s) eqn:Hpc.
    + destruct (global_signal s =? 0); reflexivity.
    + destruct (result_queue_ s) eqn:Hq; cbn; rewrite ?Hq; reflexivity.
    + reflexivity.
    + destruct (result_queue_ s) as [|f q] eqn:Hq; cbn; rewrite ?Hq; reflexivity.
    + destruct (is_ready fut s); cbn.
      * rewrite answers_app. cbn. now rewrite <- app_assoc.
      * rewrite ?Hpc. reflexivity.
    + rewrite ?Hpc. reflexivity.
  - rewrite app_nil_r. cbn in Hs. unfold run_enter in Hs.
    destruct (owner s); [|injection Hs as <-; reflexivity].
    cbn in Hs. destruct (rest_endpoint_ s); [|discriminate].
    destruct start_failure; injection Hs as <-; cbn;
      rewrite ?answers_app; cbn; now rewrite ?app_nil_r.
  - rewrite app_nil_r. cbn in Hs. unfold run_poll in Hs.
    destruct (owner s); [injection Hs as <-; reflexivity|].
    destruct (global_signal s =? 0); [injection Hs as <-; reflexivity|].
    destruct (rest_endpoint_ s); [|discriminate].
    injection Hs as <-. reflexivity.
Qed.

Lemma exec_accounted evs s s' :
  exec evs s = Some s' ->
  accounted s' = (accounted s ++ map fut_value (pushed evs))%list.
Proof.
  revert s. induction evs as [|ev evs IH]; intros s He.
  - injection He as <-. cbn. now rewrite app_nil_r.
  - cbn [exec] in He. destruct (step ev s) as [s1|] eqn:H1; [|discriminate].
    rewrite (IH s1 He), (step_accounted ev s s1 H1).
    change (ev :: evs) with ([ev] ++ evs)%list.
    now rewrite pushed_app, map_app, app_assoc.
Qed.

(** While the outcome at the head is unresolved the handler stays in its
    [wait] and delivers nothing, whatever else happens. *)
Lemma blocked_behind_head fut evs :
  never_completes (fut_id fut) evs ->
  forall s s',
    response_handler_ s = AtWait fut -> is_ready fut s = false ->
    exec evs s = Some s' ->
    response_handler_ s' = AtWait fut /\ is_ready fut s' = false /\
    answers (ers s') = answers (ers s).
Proof.
  induction evs as [|ev evs IH]; intros Hnc s s' Hpc Hr He.
  - injection He as <-. auto.
  - cbn [exec] in He. destruct (step ev s) as [s1|] eqn:H1; [|discriminate].
    assert (Hstep : response_handler_ s1 = AtWait fut /\
                    is_ready fut s1 = false /\
                    answers (ers s1) = answers (ers s)).
    { destruct ev; cbn in H1.
      - apply (signal_delivered sg s s1) in H1. injection H1 as <-. cbn. rewrite answers_app. cbn.
        rewrite app_nil_r. auto.
      - injection H1 as <-. auto.
      - injection H1 as <-. cbn. split; [exact Hpc|]. split; [|reflexivity].
        unfold is_ready in *. cbn. destruct (fut_launch fut); [|exact Hr].
        cbn. destruct Hnc as [Hne _].
        apply Nat.eqb_neq in Hne. rewrite Nat.eqb_sym in Hne. now rewrite Hne.
      - injection H1 as <-. unfold responseHandler. rewrite Hpc, Hr. auto.
      - unfold run_enter in H1.
        destruct (owner s); [|injection H1 as <-; auto].
        cbn in H1. destruct (rest_endpoint_ s); [|discriminate].
        destruct start_failure; injection H1 as <-; cbn;
          rewrite ?answers_app; cbn; rewrite ?app_nil_r; auto.
      - unfold run_poll in H1.
        destruct (owner s); [injection H1 as <-; auto|].
        destruct (global_signal s =? 0); [injection H1 as <-; auto|].
        destruct (rest_endpoint_ s); [|discriminate].
        injection H1 as <-. auto. }
    destruct Hstep as (Hpc1 & Hr1 & Ha1).
    assert (Hnc' : never_completes (fut_id fut) evs).
    { destruct ev; cbn in Hnc; tauto. }
    destruct (IH Hnc' s1 s' Hpc1 Hr1 He) as (? & ? & ?).
    repeat split; congruence.
Qed.

End TraceFacts.

Section HandlerFacts.

Context `{Collaborators}.

(** The state the constructor leaves behind. *)
Lemma constructed_state uri s0 :
  restCommandFacility uri = Return s0 ->
  global_signal s0 = 0 /\ manager_ptr_ s0 = indeterminate /\
  result_queue_ s0 = [] /\ response_handler_ s0 = AtWhile /\
  owner s0 = OutsideRun /\ answers (ers s0) = [] /\
  exists parts, parse_uri uri = Return parts /\
    match setup_endpoint parts deferred with
    | Return ep => rest_endpoint_ s0 = Some ep
    | Throw _ => rest_endpoint_ s0 = None
    end.
Proof.
  intros Hs0. destruct (parse_uri uri) as [parts|t] eqn:Hp.
  - destruct (constructor_returns uri parts Hp)
      as (s & Hs & Hg & Hm & Hq & Hpc & Ho & Ha & He).
    rewrite Hs in Hs0. injection Hs0 as <-.
    repeat split; try assumption. exists parts. split; [reflexivity | exact He].
  - unfold restCommandFacility in Hs0. rewrite Hp in Hs0. discriminate Hs0.
Qed.

Lemma exec_handler_steps n s :
  exec (repeat Handler n) s = Some (Nat.iter n responseHandler s).
Proof.
  revert s. induction n as [|n IH]; intros s; [reflexivity|].
  cbn [repeat exec step]. now rewrite IH, Nat.iter_succ_r.
Qed.

(** Once the handler has returned, nothing is delivered any more: pushes
    only lengthen the queue. *)
Lemma finished_is_final evs :
  forall s s',
    response_handler_ s = Finished -> exec evs s = Some s' ->
    response_handler_ s' = Finished /\
    answers (ers s') = answers (ers s) /\
    result_queue_ s' = (result_queue_ s ++ pushed evs)%list.
Proof.
  induction evs as [|ev evs IH]; intros s s' Hpc He.
  - injection He as <-. now rewrite app_nil_r.
  - cbn [exec] in He. destruct (step ev s) as [s1|] eqn:H1; [|discriminate].
    assert (Hstep : response_handler_ s1 = Finished /\
                    answers (ers s1) = answers (ers s) /\
                    result_queue_ s1 = (result_queue_ s ++ pushed [ev])%list).
    { destruct ev; cbn in H1.
      - apply (signal_delivered sg s s1) in H1. injection H1 as <-. cbn. rewrite answers_app. cbn.
        now rewrite !app_nil_r.
      - injection H1 as <-. auto.
      - injection H1 as <-. cbn. now rewrite app_nil_r.
      - injection H1 as <-. unfold responseHandler. rewrite Hpc. cbn.
        now rewrite app_nil_r.
      - unfold run_enter in H1.
        destruct (owner s); [|injection H1 as <-; cbn; now rewrite app_nil_r].
        cbn in H1. destruct (rest_endpoint_ s); [|discriminate].
        destruct start_failure; injection H1 as <-; cbn;
          rewrite ?answers_app; cbn; now rewrite ?app_nil_r.
      - unfold run_poll in H1.
        destruct (owner s); [injection H1 as <-; cbn; now rewrite app_nil_r|].
        destruct (global_signal s =? 0);
          [injection H1 as <-; cbn; now rewrite app_nil_r|].
        destruct (rest_endpoint_ s); [|discriminate].
        injection H1 as <-. cbn. now rewrite app_nil_r. }
    destruct Hstep as (Hpc1 & Ha1 & Hq1).
    destruct (IH s1 s' Hpc1 He) as (Hpc' & Ha' & Hq').
    split; [exact Hpc'|]. split; [congruence|].
    rewrite Hq', Hq1. change (ev :: evs) with ([ev] ++ evs)%list.
    now rewrite pushed_app, app_assoc.
Qed.

(** Bounds first, then the run of the handler's own steps unfolded. *)
Ltac handler_run :=
  split; [lia|]; split; [cbn; lia|]; split; [apply exec_handler_steps|];
  unfold Nat.iter; cbn [nat_rect]; unfold responseHandler.

(** With the flag set, the handler returns after at most four of its own
    steps unless the outcome it is committed to is not ready; on the way it
    delivers at most that one outcome. *)
Lemma handler_exits_when_set s :
  global_signal s <> 0 ->
  (forall fut, committed s = Some fut -> is_ready fut s = true) ->
  exists n s' done,
    (n <= 4)%nat /\ (List.length done <= 1)%nat /\
    exec (repeat Handler n) s = Some s' /\
    response_handler_ s' = Finished /\
    (in_flight s ++ result_queue_ s = done ++ result_queue_ s')%list /\
    answers (ers s') = (answers (ers s) ++ map fut_value done)%list /\
    (forall fut, In fut done -> committed s = Some fut).
Proof.
  intros Hg Hready. apply Z.eqb_neq in Hg.
  assert (Hr : forall fut s1,
             committed s = Some fut ->
             completed s1 = completed s -> is_ready fut s1 = true).
  { intros fut s1 Hin Hc. rewrite <- (Hready fut Hin).
    unfold is_ready. now rewrite Hc. }
  unfold committed, in_flight in *.
  destruct (response_handler_ s) eqn:Hpc.
  - exists 1%nat, (Nat.iter 1 responseHandler s), []. handler_run.
    rewrite Hpc, Hg. cbn -[Z.eqb]. rewrite app_nil_r.
    repeat split. intros fut [].
  - destruct (result_queue_ s) as [|f q] eqn:Hq.
    + exists 3%nat, (Nat.iter 3 responseHandler s), []. handler_run.
      rewrite Hpc, Hq. cbn -[Z.eqb]. rewrite Hg. cbn -[Z.eqb].
      rewrite Hq, app_nil_r. repeat split. intros fut [].
    + exists 4%nat, (Nat.iter 4 responseHandler s), [f]. handler_run.
      rewrite Hpc, Hq. cbn -[Z.eqb]. rewrite Hq. cbn -[Z.eqb].
      rewrite (Hr f) by reflexivity. cbn -[Z.eqb].
      rewrite Hg. cbn -[Z.eqb]. rewrite answers_app.
      repeat split. intros fut [<- | []]. reflexivity.
  - exists 2%nat, (Nat.iter 2 responseHandler s), []. handler_run.
    rewrite Hpc. cbn -[Z.eqb]. rewrite Hg. cbn -[Z.eqb]. rewrite app_nil_r.
    repeat split. intros fut [].
  - destruct (result_queue_ s) as [|f q] eqn:Hq.
    + exists 2%nat, (Nat.iter 2 responseHandler s), []. handler_run.
      rewrite Hpc, Hq. cbn -[Z.eqb]. rewrite Hg. cbn -[Z.eqb].
      rewrite Hq, app_nil_r. repeat split. intros fut [].
    + exists 3%nat, (Nat.iter 3 responseHandler s), [f]. handler_run.
      rewrite Hpc, Hq. cbn -[Z.eqb].
      rewrite (Hr f) by reflexivity. cbn -[Z.eqb].
      rewrite Hg. cbn -[Z.eqb]. rewrite answers_app.
      repeat split. intros fut0 [<- | []]. reflexivity.
  - exists 2%nat, (Nat.iter 2 responseHandler s), [fut]. handler_run.
    rewrite Hpc, (Hready fut eq_refl). cbn -[Z.eqb].
    rewrite Hg. cbn -[Z.eqb]. rewrite answers_app.
    repeat split. intros fut0 [<- | []]. reflexivity.
  - exists 0%nat, s, []. cbn. rewrite app_nil_r.
    repeat split; first [lia | exact Hpc | now intros fut []].
Qed.

Lemma is_ready_completed fut s1 s2 :
  completed s1 = completed s2 -> is_ready fut s1 = is_ready fut s2.
Proof. intros Hc. unfold is_ready. now rewrite Hc. Qed.

Lemma handler_completed s : completed (responseHandler s) = completed s.
Proof.
  unfold responseHandler.
  destruct (response_handler_ s);
    [ destruct (global_signal s =? 0)
    | destruct (result_queue_ s)
    |
    | destruct (result_queue_ s)
    | destruct (is_ready fut s)
    | ]; reflexivity.
Qed.

(** An outcome that is resolved stays resolved. *)
Lemma step_ready_mono ev s s1 fut :
  step ev s = Some s1 -> is_ready fut s = true -> is_ready fut s1 = true.
Proof.
  intros Hs Hr. destruct ev.
  - apply (signal_delivered sg s s1) in Hs. injection Hs as <-. exact Hr.
  - injection Hs as <-. exact Hr.
  - injection Hs as <-. unfold is_ready in *. cbn.
    destruct (fut_launch fut); [|reflexivity]. cbn. rewrite Hr. apply orb_true_r.
  - injection Hs as <-.
    now rewrite (is_ready_completed fut _ s (handler_completed s)).
  - cbn [step] in Hs. unfold run_enter in Hs.
    destruct (owner s); [|injection Hs as <-; exact Hr].
    cbn in Hs. destruct (rest_endpoint_ s); [|discriminate].
    destruct start_failure; injection Hs as <-; exact Hr.
  - cbn [step] in Hs. unfold run_poll in Hs.
    destruct (owner s); [injection Hs as <-; exact Hr|].
    destruct (global_signal s =? 0); [injection Hs as <-; exact Hr|].
    destruct (rest_endpoint_ s); [|discriminate].
    injection Hs as <-. exact Hr.
Qed.

(** What one event does to the delivered results and to the outcomes at
    hand: either nothing is delivered and the outcomes at hand grow by what
    was pushed (a pop only moves the head of the queue into the handler), or
    the handler, waiting for an outcome that is resolved, delivers it. *)
Lemma step_delivery ev s s1 :
  step ev s = Some s1 ->
  (answers (ers s1) = answers (ers s) /\
   (in_flight s1 ++ result_queue_ s1
    = in_flight s ++ result_queue_ s ++ pushed [ev])%list) \/
  (ev = Handler /\
   exists fut,
     response_handler_ s = AtWait fut /\ is_ready fut s = true /\
     answers (ers s1) = (answers (ers s) ++ [fut_value fut])%list /\
     in_flight s1 = [] /\ result_queue_ s1 = result_queue_ s).
Proof.
  intros Hs. destruct ev; cbn [pushed].
  - left. apply (signal_delivered sg s s1) in Hs. injection Hs as <-.
    cbn. rewrite answers_app. cbn. now rewrite !app_nil_r.
  - left. injection Hs as <-. unfold in_flight. cbn. now rewrite app_assoc.
  - left. injection Hs as <-. unfold in_flight. cbn. now rewrite !app_nil_r.
  - injection Hs as <-. unfold responseHandler, in_flight.
    destruct (response_handler_ s) eqn:Hpc.
    + left. destruct (global_signal s =? 0); cbn; now rewrite !app_nil_r.
    + left. destruct (result_queue_ s) eqn:Hq; cbn; rewrite ?Hq;
        now rewrite ?app_nil_r.
    + left. cbn. now rewrite !app_nil_r.
    + left. destruct (result_queue_ s) as [|f q] eqn:Hq; cbn; rewrite ?Hq;
        now rewrite ?app_nil_r.
    + destruct (is_ready fut s) eqn:Hr.
      * right. split; [reflexivity|]. exists fut. cbn.
        rewrite answers_app. repeat split; auto.
      * left. rewrite Hpc. now rewrite !app_nil_r.
    + left. rewrite Hpc. now rewrite !app_nil_r.
  - left. cbn [step] in Hs. unfold run_enter in Hs. unfold in_flight.
    destruct (owner s); [|injection Hs as <-; now rewrite !app_nil_r].
    cbn in Hs. destruct (rest_endpoint_ s); [|discriminate].
    destruct start_failure; injection Hs as <-; cbn;
      rewrite ?answers_app; cbn; now rewrite ?app_nil_r.
  - left. cbn [step] in Hs. unfold run_poll in Hs. unfold in_flight.
    destruct (owner s); [injection Hs as <-; now rewrite !app_nil_r|].
    destruct (global_signal s =? 0);
      [injection Hs as <-; now rewrite !app_nil_r|].
    destruct (rest_endpoint_ s); [|discriminate].
    injection Hs as <-. cbn. now rewrite !app_nil_r.
Qed.

(** Along a trace, the pushed outcomes are the delivered ones, all
    resolved, then the one in the handler, then the queue. *)
Lemma exec_delivered evs :
  forall s s' delivered earlier,
    answers (ers s) = (earlier ++ map fut_value delivered)%list ->
    (forall fut, In fut delivered -> is_ready fut s = true) ->
    exec evs s = Some s' ->
    exists delivered',
      (delivered ++ in_flight s ++ result_queue_ s ++ pushed evs
       = delivered' ++ in_flight s' ++ result_queue_ s')%list /\
      answers (ers s') = (earlier ++ map fut_value delivered')%list /\
      (forall fut, In fut delivered' -> is_ready fut s' = true).
Proof.
  induction evs as [|ev evs IH]; intros s s' delivered earlier Ha Hr He.
  - injection He as <-. exists delivered. cbn. rewrite app_nil_r. auto.
  - cbn [exec] in He. destruct (step ev s) as [s1|] eqn:H1; [|discriminate].
    assert (Hmono : forall fut, is_ready fut s = true -> is_ready fut s1 = true)
      by (intros fut; apply (step_ready_mono ev s s1 fut H1)).
    change (ev :: evs) with ([ev] ++ evs)%list. rewrite pushed_app.
    destruct (step_delivery ev s s1 H1)
      as [[Hsame Hpend] | (-> & fut & Hw & Hready & Hans & Hfl & Hq)].
    + destruct (IH s1 s' delivered earlier) as (D & HD & HA & HR);
        [congruence | auto | exact He |].
      exists D. split; [|auto].
      rewrite <- HD. rewrite (app_assoc (in_flight s1)), Hpend.
      now rewrite <- !app_assoc.
    + destruct (IH s1 s' (delivered ++ [fut])%list earlier) as (D & HD & HA & HR).
      * rewrite Hans, Ha, map_app. cbn. now rewrite <- app_assoc.
      * intros f Hf. apply in_app_or in Hf as [Hf | [<- | []]]; auto.
      * exact He.
      * exists D. split; [|auto]. rewrite <- HD.
        unfold in_flight at 1. rewrite Hw, Hfl, Hq. cbn.
        now rewrite <- !app_assoc.
Qed.

(** An outcome the handler is committed to and that is not resolved keeps
    the handler from returning. *)
Lemma committed_step fut ev s s1 :
  committed s = Some fut -> is_ready fut s = false ->
  never_completes (fut_id fut) [ev] ->
  step ev s = Some s1 ->
  committed s1 = Some fut /\ is_ready fut s1 = false /\
  answers (ers s1) = answers (ers s).
Proof.
  intros Hc Hr Hnc Hs. destruct ev.
  - apply (signal_delivered sg s s1) in Hs. injection Hs as <-.
    cbn. rewrite answers_app. cbn. rewrite app_nil_r. auto.
  - injection Hs as <-. repeat split; [|exact Hr].
    unfold committed in *. cbn.
    destruct (response_handler_ s); try exact Hc;
      destruct (result_queue_ s); try discriminate Hc; exact Hc.
  - injection Hs as <-. split; [exact Hc|]. split; [|reflexivity].
    unfold is_ready in *. cbn. destruct (fut_launch fut); [|exact Hr].
    cbn. destruct Hnc as [Hne _].
    apply Nat.eqb_neq in Hne. rewrite Nat.eqb_sym in Hne. now rewrite Hne.
  - injection Hs as <-. unfold responseHandler, committed in *.
    destruct (response_handler_ s) eqn:Hpc; try discriminate Hc.
    + destruct (result_queue_ s) as [|f q] eqn:Hq; [discriminate Hc|].
      cbn. rewrite Hq. auto.
    + destruct (result_queue_ s) as [|f q] eqn:Hq; [discriminate Hc|].
      cbn in Hc |- *. injection Hc as ->. auto.
    + injection Hc as ->. rewrite Hr, Hpc. auto.
  - cbn [step] in Hs. unfold run_enter in Hs.
    destruct (owner s); [|injection Hs as <-; auto].
    cbn in Hs. destruct (rest_endpoint_ s); [|discriminate].
    destruct start_failure; injection Hs as <-; cbn;
      rewrite ?answers_app; cbn; rewrite ?app_nil_r; auto.
  - cbn [step] in Hs. unfold run_poll in Hs.
    destruct (owner s); [injection Hs as <-; auto|].
    destruct (global_signal s =? 0); [injection Hs as <-; auto|].
    destruct (rest_endpoint_ s); [|discriminate].
    injection Hs as <-. auto.
Qed.

Lemma committed_blocks fut evs :
  never_completes (fut_id fut) evs ->
  forall s s',
    committed s = Some fut -> is_ready fut s = false ->
    exec evs s = Some s' ->
    response_handler_ s' <> Finished /\ committed s' = Some fut /\
    is_ready fut s' = false /\ answers (ers s') = answers (ers s).
Proof.
  induction evs as [|ev evs IH]; intros Hnc s s' Hc Hr He.
  - injection He as <-. repeat split; try assumption.
    intros Hf. unfold committed in Hc. rewrite Hf in Hc. discriminate Hc.
  - cbn [exec] in He. destruct (step ev s) as [s1|] eqn:H1; [|discriminate].
    assert (Hnc1 : never_completes (fut_id fut) [ev])
      by (destruct ev; cbn in Hnc |- *; tauto).
    assert (Hnc' : never_completes (fut_id fut) evs)
      by (destruct ev; cbn in Hnc; tauto).
    destruct (committed_step fut ev s s1 Hc Hr Hnc1 H1) as (Hc1 & Hr1 & Ha1).
    destruct (IH Hnc' s1 s' Hc1 Hr1 He) as (? & ? & ? & ?).
    repeat split; congruence.
Qed.

End HandlerFacts.

(** ** Delivery order *)

(** C2: along every interleaving that starts from a constructed facility,
    the pushed outcomes are, in push order, the outcomes delivered so far,
    then the one the handler holds, then the queue; the delivered results
    are the results of the delivered outcomes, each of which is resolved.
    So results are delivered in enqueue order whatever the order of
    completion.  A result is delivered by no other step than the handler's
    wait on the outcome it holds, once that outcome is resolved; an outcome
    is popped only when the handler holds none, which is after the previous
    one has been delivered; and while the outcome the handler holds is
    unresolved nothing is delivered, whichever other outcomes complete
    meanwhile. *)
Theorem delivery_in_enqueue_order {C : Collaborators}
        (uri : string) (s0 : system) (evs : list event) (s : system) :
  restCommandFacility uri = Return s0 ->
  exec evs s0 = Some s ->
  (exists delivered,
      pushed evs = (delivered ++ in_flight s ++ result_queue_ s)%list /\
      answers (ers s) = map fut_value delivered /\
      forall fut, In fut delivered -> is_ready fut s = true) /\
  (answers (ers s) ++ map fut_value (in_flight s ++ result_queue_ s))%list
  = map fut_value (pushed evs) /\
  (List.length (in_flight s) <= 1)%nat /\
  (forall ev s1,
      step ev s = Some s1 ->
      (answers (ers s1) = answers (ers s) /\
       (in_flight s1 ++ result_queue_ s1
        = in_flight s ++ result_queue_ s ++ pushed [ev])%list) \/
      (ev = Handler /\
       exists fut,
         response_handler_ s = AtWait fut /\ is_ready fut s = true /\
         answers (ers s1) = (answers (ers s) ++ [fut_value fut])%list /\
         in_flight s1 = [] /\ result_queue_ s1 = result_queue_ s)) /\
  (forall ev s1 fut,
      step ev s = Some s1 -> in_flight s1 = [fut] ->
      in_flight s = [fut] \/
      (ev = Handler /\ in_flight s = [] /\
       result_queue_ s = fut :: result_queue_ s1)) /\
  (forall fut more s',
      response_handler_ s = AtWait fut -> is_ready fut s = false ->
      never_completes (fut_id fut) more -> exec more s = Some s' ->
      response_handler_ s' = AtWait fut /\ answers (ers s') = answers (ers s)).
Proof.
  intros Hs0 He.
  destruct (constructed_state uri s0 Hs0) as (_ & _ & Hq & Hpc & _ & Ha & _).
  split; [|split; [|split; [|split; [|split]]]].
  - destruct (exec_delivered evs s0 s [] [] Ha (fun f (Hf : In f []) => match Hf with end) He)
      as (D & HD & HA & HR).
    unfold in_flight at 1 in HD. rewrite Hq, Hpc in HD.
    exists D. repeat split; assumption.
  - pose proof (exec_accounted evs s0 s He) as Hacc.
    unfold accounted, in_flight in Hacc. rewrite Hq, Hpc, Ha in Hacc.
    exact Hacc.
  - unfold in_flight. destruct (response_handler_ s); cbn; lia.
  - intros ev s1. apply step_delivery.
  - intros ev s1 fut Hstep Hfl.
    destruct (step_delivery ev s s1 Hstep)
      as [[_ Hpend] | (_ & f & _ & _ & _ & Hnone & _)];
      [|rewrite Hnone in Hfl; discriminate Hfl].
    destruct ev; cbn [pushed] in Hpend; rewrite ?app_nil_r in Hpend.
    + left. apply (signal_delivered sg s s1) in Hstep. now injection Hstep as <-.
    + left. injection Hstep as <-. exact Hfl.
    + left. injection Hstep as <-. exact Hfl.
    + injection Hstep as <-. revert Hfl Hpend.
      unfold responseHandler, in_flight.
      destruct (response_handler_ s) eqn:Hw.
      * destruct (global_signal s =? 0); cbn; discriminate.
      * destruct (result_queue_ s); cbn; discriminate.
      * cbn. discriminate.
      * destruct (result_queue_ s) as [|f q]; cbn; [discriminate|].
        intros Hf _. injection Hf as ->. right. auto.
      * destruct (is_ready fut0 s); cbn; [discriminate|].
        rewrite Hw. intros Hf _. now left.
      * rewrite Hw. discriminate.
    + left. cbn [step] in Hstep. unfold run_enter in Hstep.
      destruct (owner s); [|now injection Hstep as <-].
      cbn in Hstep. destruct (rest_endpoint_ s); [|discriminate].
      destruct start_failure; injection Hstep as <-; exact Hfl.
    + left. cbn [step] in Hstep. unfold run_poll in Hstep.
      destruct (owner s); [now injection Hstep as <-|].
      destruct (global_signal s =? 0); [now injection Hstep as <-|].
      destruct (rest_endpoint_ s); [|discriminate].
      injection Hstep as <-. exact Hfl.
  - intros fut more s' Hw Hr Hnc Hm.
    destruct (blocked_behind_head fut more Hnc s s' Hw Hr Hm) as (Hw' & _ & Ha').
    split; assumption.
Qed.

(** The second outcome completes first and is still delivered second: when
    it has completed and the first has not, nothing has been delivered. *)
Lemma delivery_in_enqueue_order_witness :
  exists s0 s,
    @restCommandFacility scripted "rest://ep1@localhost:12345" = Return s0 /\
    exec out_of_order_trace s0 = Some s /\
    (exists delivered,
        pushed out_of_order_trace
        = (delivered ++ in_flight s ++ result_queue_ s)%list /\
        answers (ers s) = map fut_value delivered /\
        forall fut, In fut delivered -> is_ready fut s = true) /\
    answers (ers s) = [fut_value first_outcome; fut_value second_outcome] /\
    exists s_mid,
      exec (firstn 8 out_of_order_trace) s0 = Some s_mid /\
      is_ready second_outcome s_mid = true /\
      is_ready first_outcome s_mid = false /\
      answers (ers s_mid) = [].
Proof.
  eexists. eexists.
  split; [vm_compute; reflexivity|].
  split; [vm_compute; reflexivity|].
  split; [|split; [vm_compute; reflexivity|]].
  - refine (proj1 (@delivery_in_enqueue_order scripted
                     "rest://ep1@localhost:12345" _ out_of_order_trace _ _ _)).
    + vm_compute; reflexivity.
    + vm_compute; reflexivity.
  - eexists. split; [vm_compute; reflexivity|]. repeat split.
Defined.

(** ** Shutdown *)

(** C5 (amended): once [global_signal] is non-zero it stays non-zero.  The
    response handler then returns within four of its own steps, delivering
    at most the one outcome it was already committed to (the one it waits
    for, or the head of the queue once it has passed the loop test), unless
    that outcome is not ready; an outcome that is deferred is resolved by
    running its callback, which needs a manager attached.  While the
    outcome the handler is committed to stays unresolved the handler does
    not return.  Every other outcome is still in the queue when the handler
    returns; after that nothing is delivered or logged for it, and the
    destructor only joins the thread. *)
Theorem handler_exit_leaves_queue {C : Collaborators} (s : system) :
  global_signal s <> 0 ->
  (forall evs s', exec evs s = Some s' -> global_signal s' <> 0) /\
  ((forall fut, committed s = Some fut ->
                is_ready fut s = true /\ wait_defined fut s) ->
   exists n s' done,
     (n <= 4)%nat /\ (List.length done <= 1)%nat /\
     exec (repeat Handler n) s = Some s' /\
     response_handler_ s' = Finished /\
     (in_flight s ++ result_queue_ s = done ++ result_queue_ s')%list /\
     answers (ers s') = (answers (ers s) ++ map fut_value done)%list /\
     (forall fut, In fut done -> committed s = Some fut)) /\
  (forall fut evs s',
      committed s = Some fut -> is_ready fut s = false ->
      never_completes (fut_id fut) evs -> exec evs s = Some s' ->
      response_handler_ s' <> Finished /\ answers (ers s') = answers (ers s)) /\
  (response_handler_ s = Finished ->
   forall evs s', exec evs s = Some s' ->
     response_handler_ s' = Finished /\
     answers (ers s') = answers (ers s) /\
     result_queue_ s' = (result_queue_ s ++ pushed evs)%list /\
     destructor s' = Some s').
Proof.
  intros Hg. split; [|split; [|split]].
  - intros evs s'. apply (exec_preserves (fun x => global_signal x <> 0)).
    + intros ev x x'. apply signal_stays_set.
    + exact Hg.
  - intros Hready. apply (handler_exits_when_set s Hg).
    intros fut Hc. apply (Hready fut Hc).
  - intros fut evs s' Hc Hr Hnc He.
    destruct (committed_blocks fut evs Hnc s s' Hc Hr He) as (Hnf & _ & _ & Ha).
    split; assumption.
  - intros Hpc evs s' He.
    destruct (finished_is_final evs s s' Hpc He) as (Hpc' & Ha & Hq).
    repeat split; try assumption. unfold destructor. now rewrite Hpc'.
Qed.

(** A signal arrives while [run] is active and the handler is about to pop
    the first of two deferred outcomes: it delivers that one and returns. *)
Lemma handler_exit_leaves_queue_witness :
  exists s0 s,
    @restCommandFacility scripted "rest://ep1@localhost:12345" = Return s0 /\
    exec stop_while_serving s0 = Some s /\
    global_signal s <> 0 /\
    exists n s' done,
      (n <= 4)%nat /\ (List.length done <= 1)%nat /\
      exec (repeat Handler n) s = Some s' /\
      response_handler_ s' = Finished /\
      (in_flight s ++ result_queue_ s = done ++ result_queue_ s')%list /\
      answers (ers s') = (answers (ers s) ++ map fut_value done)%list /\
      (forall fut, In fut done -> committed s = Some fut).
Proof.
  eexists. eexists.
  split; [vm_compute; reflexivity|].
  split; [vm_compute; reflexivity|].
  assert (Hg : forall x : Z, x = 3 -> x <> 0) by (intros x ->; discriminate).
  split; [apply Hg; reflexivity|].
  refine (proj1 (proj2 (@handler_exit_leaves_queue scripted _ _)) _).
  - apply Hg; reflexivity.
  - intros fut Hc. vm_compute in Hc. injection Hc as <-.
    split; [reflexivity|]. intros _. eexists. reflexivity.
Defined.

(** C5, as stated, fails: an outcome pushed before the signal is still in
    the queue when the handler returns; it is never delivered, nothing is
    logged for it, and the destructor's join leaves it where it is. *)
Lemma queued_outcome_dropped_on_stop :
  exists s0 s,
    @restCommandFacility scripted "rest://ep1@localhost:12345" = Return s0 /\
    exec [Push first_deferred; Signal SIGQUIT; Handler] s0 = Some s /\
    global_signal s <> 0 /\
    response_handler_ s = Finished /\
    result_queue_ s = [first_deferred] /\
    ers s = [info_endpoint "ep1" "localhost" "12345"; info_protocol "rest";
             info_signal 3] /\
    destructor s = Some s /\
    forall evs s', exec evs s = Some s' ->
                   answers (ers s') = [] /\ In first_deferred (result_queue_ s').
Proof.
  eexists. eexists.
  split; [vm_compute; reflexivity|].
  split; [vm_compute; reflexivity|].
  split; [discriminate|].
  split; [reflexivity|].
  split; [reflexivity|].
  split; [reflexivity|].
  split; [reflexivity|].
  intros evs s' He.
  apply finished_is_final in He; [|reflexivity].
  destruct He as (_ & Ha & Hq). rewrite Ha, Hq. split; [reflexivity|].
  left. reflexivity.
Qed.

(** ** The manager pointer and [run] *)

Section RunFacts.

Context `{Collaborators}.

(** The response handler touches the queue, its own control point and
    the ERS output only. *)
Lemma handler_frame s :
  owner (responseHandler s) = owner s /\
  manager_ptr_ (responseHandler s) = manager_ptr_ s /\
  rest_endpoint_ (responseHandler s) = rest_endpoint_ s.
Proof.
  unfold responseHandler.
  destruct (response_handler_ s);
    try destruct (global_signal s =? 0);
    try destruct (result_queue_ s);
    try destruct (is_ready fut s); auto.
Qed.

Lemma run_invariant_step ran ev s s' :
  run_invariant ran s -> step ev s = Some s' ->
  run_invariant (ran || calls_run [ev]) s'.
Proof.
  unfold run_invariant. intros Hi Hs. destruct ev; cbn [calls_run] in *;
    rewrite ?orb_false_r, ?orb_true_r.
  - apply (signal_delivered sg s s') in Hs. injection Hs as <-. exact Hi.
  - injection Hs as <-. exact Hi.
  - injection Hs as <-. exact Hi.
  - injection Hs as <-. destruct (handler_frame s) as (-> & -> & ->).
    exact Hi.
  - cbn in Hs. unfold run_enter in Hs. destruct (owner s) eqn:Ho.
    + cbn in Hs. destruct (rest_endpoint_ s) eqn:He; [|discriminate].
      destruct start_failure; injection Hs as <-; cbn;
        (split; [reflexivity|]); (split; [now exists manager|]);
        rewrite ?He; discriminate.
    + injection Hs as <-. rewrite Ho. destruct Hi as (_ & Hm & He).
      auto.
  - cbn in Hs. unfold run_poll in Hs. destruct (owner s) eqn:Ho.
    + injection Hs as <-. now rewrite Ho.
    + destruct Hi as (-> & Hm & He).
      destruct (global_signal s =? 0).
      * injection Hs as <-. rewrite Ho. auto.
      * destruct (rest_endpoint_ s); [|discriminate].
        injection Hs as <-. reflexivity.
Qed.

Lemma run_invariant_exec evs :
  forall ran s s',
    run_invariant ran s -> exec evs s = Some s' ->
    run_invariant (ran || calls_run evs) s'.
Proof.
  induction evs as [|ev evs IH]; intros ran s s' Hi He.
  - injection He as <-. now rewrite orb_false_r.
  - cbn [exec] in He. destruct (step ev s) as [s1|] eqn:H1; [|discriminate].
    pose proof (IH _ s1 s' (run_invariant_step ran ev s s1 Hi H1) He) as Hi'.
    replace (ran || calls_run (ev :: evs))
      with (ran || calls_run [ev] || calls_run evs); [exact Hi'|].
    destruct ev; cbn; now rewrite ?orb_false_r, ?orb_true_r.
Qed.

Lemma step_keeps_address ev s s' :
  step ev s = Some s' -> endpoint_address s' = endpoint_address s.
Proof.
  unfold endpoint_address. intros Hs. destruct ev; cbn in Hs.
  - apply (signal_delivered sg s s') in Hs. injection Hs as <-. reflexivity.
  - injection Hs as <-. reflexivity.
  - injection Hs as <-. reflexivity.
  - injection Hs as <-. destruct (handler_frame s) as (_ & _ & ->).
    reflexivity.
  - unfold run_enter in Hs. destruct (owner s); [|now injection Hs as <-].
    cbn in Hs. destruct (rest_endpoint_ s) eqn:He; [|discriminate].
    destruct start_failure; injection Hs as <-; cbn; now rewrite ?He.
  - unfold run_poll in Hs. destruct (owner s); [now injection Hs as <-|].
    destruct (global_signal s =? 0); [now injection Hs as <-|].
    destruct (rest_endpoint_ s) eqn:He; [|discriminate].
    injection Hs as <-. reflexivity.
Qed.

End RunFacts.

(** C10: the callback dereferences [manager_ptr_] unconditionally.  The
    constructor leaves the pointer unset; along every interleaving from a
    constructed facility it refers to a manager exactly while a [run] call is
    active, it is still unset before the first [run] and null after [run] has
    returned; and the callback has a defined outcome exactly while a [run]
    call is active. *)
Theorem commandHandler_needs_active_run {C : Collaborators}
        (uri : string) (s0 : system) (evs : list event) (s : system) :
  restCommandFacility uri = Return s0 ->
  exec evs s0 = Some s ->
  manager_ptr_ s0 = indeterminate /\
  (owner s = InsideRun <-> exists manager, manager_ptr_ s = ref manager) /\
  (owner s = OutsideRun ->
   manager_ptr_ s = if calls_run evs then nullptr else indeterminate) /\
  (forall command ansaddr port,
      commandHandler s command ansaddr port = Undefined <-> owner s = OutsideRun).
Proof.
  intros Hs0 He.
  destruct (constructed_state uri s0 Hs0) as (_ & Hm & _ & _ & Ho & _).
  assert (Hi0 : run_invariant false s0).
  { unfold run_invariant. now rewrite Ho. }
  pose proof (run_invariant_exec evs false s0 s Hi0 He) as Hi.
  cbn [orb] in Hi. unfold run_invariant in Hi.
  split; [exact Hm|].
  destruct (owner s) eqn:Hos.
  - assert (Hnot : forall manager, manager_ptr_ s <> ref manager).
    { intros manager. rewrite Hi. destruct (calls_run evs); discriminate. }
    split; [|split].
    + split; [discriminate|]. intros [manager Hp]. now contradiction (Hnot manager).
    + intros _. exact Hi.
    + intros command ansaddr port. split; [reflexivity|]. intros _.
      unfold commandHandler. rewrite Hi. now destruct (calls_run evs).
  - destruct Hi as (_ & [manager Hp] & _).
    split; [|split].
    + split; [intros _; now exists manager | reflexivity].
    + discriminate.
    + intros command ansaddr port. split; [|discriminate].
      unfold commandHandler. rewrite Hp.
      destruct (o <- object_parse command;; execute manager o) as [u|[e|]];
        discriminate.
Qed.

(** After [run] has returned the pointer is null and a command has no
    defined outcome. *)
Lemma commandHandler_needs_active_run_witness :
  exists s0 s,
    @restCommandFacility scripted "rest://ep1@localhost:12345" = Return s0 /\
    exec served_and_stopped s0 = Some s /\
    manager_ptr_ s0 = indeterminate /\
    owner s = OutsideRun /\
    manager_ptr_ s = nullptr /\
    commandHandler s "start" "localhost" 5000 = Undefined.
Proof.
  eexists. eexists.
  split; [vm_compute; reflexivity|].
  split; [vm_compute; reflexivity|].
  match goal with
  | |- manager_ptr_ ?a = _ /\ owner ?b = _ /\ _ =>
      pose proof (@commandHandler_needs_active_run scripted
                    "rest://ep1@localhost:12345" a served_and_stopped b
                    ltac:(vm_compute; reflexivity)
                    ltac:(vm_compute; reflexivity)) as claim
  end.
  destruct claim as (Hm0 & _ & Hout & Hundef).
  split; [exact Hm0|]. split; [reflexivity|].
  split; [exact (Hout eq_refl)|]. exact (proj2 (Hundef _ _ _) eq_refl).
Defined.

(** ** The endpoint configuration *)

(** C7 (amended): when the constructor returns with an endpoint set up, the
    port of that endpoint is the integer after the last ':' and lies in
    [1, 65535], and its host is the host field cut from the URI; no later
    event changes the host or the port.  Nothing requires the scheme, the
    name or the host to be non-empty, and the constructor also returns
    without any endpoint when the port is not accepted. *)
Theorem endpoint_port_valid_and_fixed {C : Collaborators}
        (uri : string) (s0 : system) :
  restCommandFacility uri = Return s0 ->
  (forall ep, rest_endpoint_ s0 = Some ep ->
     1 <= ep_port ep <= 65535 /\
     exists parts, parse_uri uri = Return parts /\
                   ep_host ep = hostname parts /\
                   stoi (portstr parts) = Return (ep_port ep)) /\
  (forall evs s, exec evs s0 = Some s -> endpoint_address s = endpoint_address s0).
Proof.
  intros Hs0.
  destruct (constructed_state uri s0 Hs0) as (_ & _ & _ & _ & _ & _ & parts & Hp & He).
  split.
  - intros ep Hep.
    pose proof (setup_endpoint_cases parts deferred) as Hc.
    destruct (stoi (portstr parts)) as [n|t] eqn:Hn.
    + destruct ((1 <=? n) && (n <=? 65535)) eqn:Hr.
      * rewrite Hc, Hep in He. injection He as ->. cbn.
        apply andb_true_iff in Hr as [H1 H2].
        apply Z.leb_le in H1. apply Z.leb_le in H2.
        split; [lia|]. exists parts. repeat split; assumption.
      * rewrite Hc in He. congruence.
    + destruct Hc as [Hc _]. rewrite Hc in He. congruence.
  - intros evs s.
    apply (exec_preserves (fun x => endpoint_address x = endpoint_address s0)).
    + intros ev x x' Hx Hstep. now rewrite (step_keeps_address ev x x' Hstep).
    + reflexivity.
Qed.

Lemma endpoint_port_valid_and_fixed_witness :
  exists s0 s,
    @restCommandFacility scripted "rest://ep1@localhost:12345" = Return s0 /\
    exec served_and_stopped s0 = Some s /\
    endpoint_address s = endpoint_address s0.
Proof.
  eexists. eexists.
  split; [vm_compute; reflexivity|].
  split; [vm_compute; reflexivity|].
  refine (proj2 (@endpoint_port_valid_and_fixed scripted
                   "rest://ep1@localhost:12345" _ _) served_and_stopped _ _).
  - vm_compute; reflexivity.
  - vm_compute; reflexivity.
Defined.

(** C7, as stated, fails: "://@:80" is accepted with an empty scheme, an
    empty name and an empty host, and "://x" is accepted without any valid
    port. *)
Lemma constructed_with_empty_fields :
  (parse_uri "://@:80"
   = Return {| scheme := ""; iname := "@:80"; portstr := "80";
               epname := ""; hostname := "" |} /\
   exists s, @restCommandFacility scripted "://@:80" = Return s /\
             rest_endpoint_ s
             = Some {| ep_host := ""; ep_port := 80; ep_policy := deferred;
                       ep_threads := 1; ep_listening := false |}) /\
  (exists parts s, parse_uri "://x" = Return parts /\ scheme parts = "" /\
                   @restCommandFacility scripted "://x" = Return s /\
                   rest_endpoint_ s = None).
Proof.
  split.
  - split; [vm_compute; reflexivity|].
    eexists. split; vm_compute; reflexivity.
  - eexists. eexists.
    split; [vm_compute; reflexivity|]. split; [reflexivity|].
    split; vm_compute; reflexivity.
Qed.

(** * Further properties of the code *)

(** ** What the constructor cuts, put back together *)

Section SliceFacts.

Lemma take_drop n s : take n s ++ drop n s = s.
Proof.
  revert s. induction n as [|n IH]; intros [|c s]; simpl; try reflexivity.
  now rewrite IH.
Qed.

Lemma drop_drop a b s : drop a (drop b s) = drop (b + a) s.
Proof.
  revert s. induction b as [|b IH]; intros s.
  - now rewrite drop_zero.
  - destruct s as [|c s]; simpl; [now destruct a | apply IH].
Qed.

Lemma starts_with_split pat s :
  starts_with pat s = true -> s = pat ++ drop (String.length pat) s.
Proof.
  revert s. induction pat as [|a pat IH]; intros s Hs.
  - reflexivity.
  - destruct s as [|b s]; cbn [starts_with] in Hs; [discriminate|].
    apply andb_true_iff in Hs as [Hab Hs]. apply Ascii.eqb_eq in Hab. subst b.
    simpl. f_equal. apply IH, Hs.
Qed.

Lemma first_occurrence_here pat s n :
  first_occurrence pat s = Some n -> starts_with pat (drop n s) = true.
Proof.
  revert n. induction s as [|a s IH]; intros n Hn.
  - destruct pat; simpl in Hn; [|discriminate]. injection Hn as <-. reflexivity.
  - cbn [first_occurrence] in Hn.
    destruct (starts_with pat (String a s)) eqn:Hp.
    + injection Hn as <-. exact Hp.
    + destruct (first_occurrence pat s) as [k|]; simpl in Hn; [|discriminate].
      injection Hn as <-. simpl. apply IH. reflexivity.
Qed.

Lemma first_index_here c s n :
  first_index c s = Some n -> drop n s = String c (drop (n + 1) s).
Proof.
  revert n. induction s as [|a s IH]; intros n Hn; simpl in Hn; [discriminate|].
  destruct (Ascii.eqb a c) eqn:Hac.
  - injection Hn as <-. apply Ascii.eqb_eq in Hac. subst a. reflexivity.
  - destruct (first_index c s) as [k|]; simpl in Hn; [|discriminate].
    injection Hn as <-. simpl. apply IH. reflexivity.
Qed.

Lemma last_index_here c s n :
  last_index c s = Some n ->
  drop n s = String c (drop (n + 1) s) /\ last_index c (drop (n + 1) s) = None.
Proof.
  revert n. induction s as [|a s IH]; intros n Hn; simpl in Hn; [discriminate|].
  destruct (last_index c s) as [k|] eqn:Hk.
  - injection Hn as <-. simpl. apply IH. reflexivity.
  - destruct (Ascii.eqb a c) eqn:Hac; [|discriminate].
    injection Hn as <-. apply Ascii.eqb_eq in Hac. subst a.
    split; [reflexivity | exact Hk].
Qed.

(** The characters from [a] up to [b], followed by the rest. *)
Lemma drop_between a b s :
  (a <= b)%nat -> drop a s = take (b - a) (drop a s) ++ drop b s.
Proof.
  intros Hab. rewrite <- (take_drop (b - a) (drop a s)) at 1.
  rewrite drop_drop. do 2 f_equal. lia.
Qed.

(** What [parse_uri] returned, read back: the positions it found and the
    cuts it made. *)
Lemma parse_uri_inversion uri parts :
  size uri < npos ->
  parse_uri uri = Return parts ->
  exists sep col,
    first_occurrence "://" uri = Some sep /\
    last_index ":" uri = Some col /\ (sep <= col)%nat /\
    scheme parts = take sep uri /\
    iname parts = drop (sep + 3) uri /\
    portstr parts = drop (col + 1) uri.
Proof.
  intros Hsz Hp.
  destruct (first_occurrence "://" uri) as [sep|] eqn:Hsep.
  - destruct (separator_has_colon _ _ Hsep) as (col & Hcol & Hle).
    rewrite (parse_uri_accepts uri sep col Hsz Hsep Hcol) in Hp.
    injection Hp as <-. exists sep, col. cbn. repeat split; assumption.
  - rewrite (parse_uri_rejects uri Hsep) in Hp. discriminate Hp.
Qed.

End SliceFacts.

(** X1: whatever accepted URI the constructor cuts, the scheme, the
    separator and the text after it put the URI back together: nothing is
    lost or repeated around "://". *)
Theorem scheme_and_rest_recompose (uri : string) (parts : uri_parts) :
  size uri < npos ->
  parse_uri uri = Return parts ->
  uri = scheme parts ++ "://" ++ iname parts.
Proof.
  intros Hsz Hp.
  destruct (parse_uri_inversion uri parts Hsz Hp)
    as (sep & col & Hsep & _ & _ & -> & -> & _).
  pose proof (starts_with_split _ _ (first_occurrence_here _ _ _ Hsep)) as Hd.
  rewrite drop_drop in Hd. change (String.length "://") with 3%nat in Hd.
  rewrite <- Hd. symmetry. apply take_drop.
Qed.

Lemma scheme_and_rest_recompose_witness :
  "rest://ep1@localhost:12345" = "rest" ++ "://" ++ "ep1@localhost:12345".
Proof.
  exact (scheme_and_rest_recompose "rest://ep1@localhost:12345"
           {| scheme := "rest"; iname := "ep1@localhost:12345";
              portstr := "12345"; epname := "ep1"; hostname := "localhost" |}
           eq_refl eq_refl).
Defined.

(** X2: the port text of an accepted URI never contains a ':', and the URI
    ends with a ':' followed by that text. *)
Theorem port_text_follows_last_colon (uri : string) (parts : uri_parts) :
  size uri < npos ->
  parse_uri uri = Return parts ->
  last_index ":" (portstr parts) = None /\
  exists front, uri = front ++ ":" ++ portstr parts.
Proof.
  intros Hsz Hp.
  destruct (parse_uri_inversion uri parts Hsz Hp)
    as (sep & col & _ & Hcol & _ & _ & _ & ->).
  destruct (last_index_here _ _ _ Hcol) as [Hd Hnone].
  split; [exact Hnone|].
  exists (take col uri). cbn [append]. rewrite <- Hd. symmetry. apply take_drop.
Qed.

Lemma port_text_follows_last_colon_witness :
  last_index ":" "12345" = None /\
  exists front, "rest://ep1@localhost:12345" = front ++ ":" ++ "12345".
Proof.
  exact (port_text_follows_last_colon "rest://ep1@localhost:12345"
           {| scheme := "rest"; iname := "ep1@localhost:12345";
              portstr := "12345"; epname := "ep1"; hostname := "localhost" |}
           eq_refl eq_refl).
Defined.

(** X3: when the first '@' of an accepted URI lies after "://" and before
    the last ':', the five separators and fields the constructor cut are the
    whole URI, in order: scheme, "://", name, '@', host, ':', port text. *)
Theorem fields_recompose (uri : string) (parts : uri_parts) (sep at_ col : nat) :
  size uri < npos ->
  first_occurrence "://" uri = Some sep ->
  first_index "@" uri = Some at_ ->
  last_index ":" uri = Some col ->
  (sep + 3 <= at_)%nat -> (at_ < col)%nat ->
  parse_uri uri = Return parts ->
  uri = scheme parts ++ "://" ++ epname parts ++ "@" ++ hostname parts
        ++ ":" ++ portstr parts.
Proof.
  intros Hsz Hsep Hat Hcol Hsa Hac Hp.
  pose proof (last_index_bound _ _ _ Hcol) as Hcb.
  assert (Hsz' : size uri < 18446744073709551615) by (now rewrite <- npos_value).
  assert (Hlen : size uri = Z.of_nat (String.length uri)) by reflexivity.
  rewrite (parse_uri_accepts uri sep col Hsz Hsep Hcol) in Hp. cbv zeta in Hp.
  rewrite (wrap_after_at uri Hsz) in Hp.
  unfold find_char in Hp. rewrite Hat in Hp. cbn [position] in Hp.
  rewrite (wrap_small (Z.of_nat at_ - _)) in Hp by lia.
  rewrite (wrap_small (Z.of_nat col - _)) in Hp by lia.
  rewrite !Z.min_l in Hp by lia.
  replace (Z.to_nat (Z.of_nat at_ - (Z.of_nat sep + 3)))
    with (at_ - (sep + 3))%nat in Hp by lia.
  replace (Z.to_nat (Z.of_nat col - (Z.of_nat at_ + 1)))
    with (col - (at_ + 1))%nat in Hp by lia.
  replace (Z.to_nat (Z.of_nat at_ + 1)) with (at_ + 1)%nat in Hp by lia.
  injection Hp as <-. cbn [scheme epname hostname portstr].
  pose proof (starts_with_split _ _ (first_occurrence_here _ _ _ Hsep)) as Hd1.
  rewrite drop_drop in Hd1. change (String.length "://") with 3%nat in Hd1.
  pose proof (first_index_here _ _ _ Hat) as Hd2.
  destruct (last_index_here _ _ _ Hcol) as [Hd3 _].
  pose proof (drop_between (sep + 3) at_ uri Hsa) as Hname.
  assert (Hhost : drop (at_ + 1) uri
                  = take (col - (at_ + 1)) (drop (at_ + 1) uri) ++ drop col uri)
    by (apply drop_between; lia).
  cbn [append] in Hd1 |- *.
  rewrite <- Hd3, <- Hhost, <- Hd2, <- Hname, <- Hd1.
  symmetry. apply take_drop.
Qed.

Lemma fields_recompose_witness :
  "rest://ep1@localhost:12345"
  = "rest" ++ "://" ++ "ep1" ++ "@" ++ "localhost" ++ ":" ++ "12345".
Proof.
  refine (fields_recompose "rest://ep1@localhost:12345"
            {| scheme := "rest"; iname := "ep1@localhost:12345";
               portstr := "12345"; epname := "ep1"; hostname := "localhost" |}
            4 10 20 eq_refl eq_refl eq_refl eq_refl _ _ eq_refl); lia.
Defined.

(** ** The port text and [std::stoi] *)

Section PortTextFacts.

Lemma last_index_app_none c (a b : string) :
  last_index c a = None -> last_index c b = None -> last_index c (a ++ b) = None.
Proof.
  intros Ha Hb. induction a as [|x a IH]; [exact Hb|].
  cbn [append last_index] in Ha |- *.
  destruct (last_index c a); [discriminate|]. rewrite (IH eq_refl). exact Ha.
Qed.

Lemma digits_value_stops junk acc :
  starts_with_digit junk = false -> digits_value junk acc = acc.
Proof.
  destruct junk as [|c junk]; [reflexivity|]. cbn.
  now destruct (digit c).
Qed.

Lemma digits_value_prefix ds junk :
  Forall (fun d => (d < 10)%nat) ds -> starts_with_digit junk = false ->
  forall acc,
    digits_value (digits_text ds ++ junk) acc
    = fold_left (fun a d => 10 * a + Z.of_nat d) ds acc.
Proof.
  intros Hall Hjunk. induction Hall as [|d ds Hd _ IH]; intros acc.
  - apply digits_value_stops, Hjunk.
  - cbn [digits_text append digits_value fold_left].
    rewrite (digit_of_digit_char d Hd). apply IH.
Qed.

(** [std::stoi] converts the leading digits and ignores what follows. *)
Lemma stoi_digits_prefix ds junk :
  ds <> [] -> Forall (fun d => (d < 10)%nat) ds ->
  starts_with_digit junk = false ->
  stoi (digits_text ds ++ junk)
  = if (INT_MIN <=? digits_number ds) && (digits_number ds <=? INT_MAX)
    then Return (digits_number ds)
    else Throw (std_exception (out_of_range "stoi")).
Proof.
  intros Hne Hall Hjunk. destruct ds as [|d ds]; [congruence|].
  pose proof (digits_value_prefix (d :: ds) junk Hall Hjunk 0) as Hv.
  fold (digits_number (d :: ds)) in Hv.
  inversion Hall as [|? ? Hd Hds]; subst.
  destruct (digit_char_plain d Hd) as (Hsp & _ & Hminus & Hplus).
  unfold stoi. cbn [digits_text append skip_spaces]. rewrite Hsp.
  set (tail := digits_text ds ++ junk) in *.
  assert (Hsign :
            match String (digit_char d) tail with
            | String "-"%char r => (true, r)
            | String "+"%char r => (false, r)
            | _ => (false, String (digit_char d) tail)
            end = (false, String (digit_char d) tail)).
  { clear - Hd. do 10 (destruct d as [|d]; [reflexivity|]). lia. }
  rewrite Hsign. cbn [starts_with_digit].
  rewrite (digit_of_digit_char d Hd).
  change (String (digit_char d) tail) with (digits_text (d :: ds) ++ junk).
  rewrite Hv. reflexivity.
Qed.

End PortTextFacts.

(** X4: characters that follow the digits of the port are ignored.  When
    the text after the last ':' is a decimal numeral for an integer in
    [1, 65535] followed by anything that does not start with a digit and
    holds no ':', the constructor sets up the endpoint with that integer as
    its port, just as for the bare numeral. *)
Theorem port_text_trailing_characters_ignored {C : Collaborators}
        (scheme_ name_ host_ : string) (port_digits : list nat) (junk : string) :
  let port_ := digits_text port_digits ++ junk in
  let uri := scheme_ ++ "://" ++ name_ ++ "@" ++ host_ ++ ":" ++ port_ in
  size uri < npos ->
  first_occurrence "://" scheme_ = None ->
  first_index "@" scheme_ = None ->
  first_index "@" name_ = None ->
  port_digits <> [] ->
  Forall (fun d => (d < 10)%nat) port_digits ->
  starts_with_digit junk = false ->
  last_index ":" junk = None ->
  1 <= digits_number port_digits <= 65535 ->
  exists parts s,
    parse_uri uri = Return parts /\ portstr parts = port_ /\
    restCommandFacility uri = Return s /\
    rest_endpoint_ s
    = Some {| ep_host := host_; ep_port := digits_number port_digits;
              ep_policy := deferred; ep_threads := 1; ep_listening := false |}.
Proof.
  intros port_ uri Hsz Hsch Hsch_at Hname_at Hne Hdigits Hjunk Hcolon Hrange.
  assert (Hstoi : stoi port_ = Return (digits_number port_digits)).
  { unfold port_. rewrite (stoi_digits_prefix _ _ Hne Hdigits Hjunk).
    replace ((INT_MIN <=? digits_number port_digits)
             && (digits_number port_digits <=? INT_MAX)) with true;
      [reflexivity|].
    symmetry. apply andb_true_iff. unfold INT_MIN, INT_MAX.
    split; apply Z.leb_le; lia. }
  assert (Hnc : last_index ":" port_ = None).
  { apply last_index_app_none; [apply digits_text_no_colon, Hdigits | exact Hcolon]. }
  destruct (uri_fields_split_stoi scheme_ name_ host_ port_
              (digits_number port_digits)
              Hsz Hsch Hsch_at Hname_at Hnc Hstoi Hrange)
    as (Hp & s & Hs & He).
  eexists. exists s. split; [exact Hp|]. repeat split; assumption.
Qed.

Lemma port_text_trailing_characters_ignored_witness :
  exists parts s,
    parse_uri "rest://ep1@localhost:8080/api" = Return parts /\
    portstr parts = "8080/api" /\
    @restCommandFacility scripted "rest://ep1@localhost:8080/api" = Return s /\
    rest_endpoint_ s
    = Some {| ep_host := "localhost"; ep_port := 8080;
              ep_policy := deferred; ep_threads := 1; ep_listening := false |}.
Proof.
  apply (@port_text_trailing_characters_ignored scripted
           "rest" "ep1" "localhost" [8; 0; 8; 0]%nat "/api");
    try reflexivity.
  - discriminate.
  - repeat constructor.
  - cbn. lia.
Defined.

(** ** The factory function *)

(** X5: [make(uri)] fails in one way only: it throws [UnsupportedUri]
    carrying the URI, exactly when the URI holds no "://"; neither the
    [substr] calls nor the port conversion ever make it throw.  Otherwise it
    returns a facility whose response handler is started on an empty queue,
    with no manager attached, and whose endpoint is missing exactly when one
    [UnsupportedUri] error has been reported. *)
Theorem make_outcome {C : Collaborators} (uri : string) :
  size uri < npos ->
  match make uri with
  | Throw t =>
      t = std_exception (UnsupportedUri uri) /\ first_occurrence "://" uri = None
  | Return s =>
      first_occurrence "://" uri <> None /\
      response_handler_ s = AtWhile /\ result_queue_ s = [] /\
      manager_ptr_ s = indeterminate /\
      ((exists ep, rest_endpoint_ s = Some ep /\ reported (ers s) = []) \/
       (rest_endpoint_ s = None /\
        exists e, reported (ers s) = [UnsupportedUri (what e)]))
  end.
Proof.
  intros Hsz. unfold make.
  destruct (first_occurrence "://" uri) as [sep|] eqn:Hsep.
  - destruct (parse_uri_total uri Hsz) as [parts Hp]; [congruence|].
    unfold restCommandFacility. rewrite Hp. cbn [bind policy_].
    pose proof (setup_endpoint_cases parts deferred) as Hc.
    destruct (stoi (portstr parts)) as [n|t].
    + destruct ((1 <=? n) && (n <=? 65535)); rewrite Hc.
      * repeat (split; [first [discriminate | reflexivity]|]).
        left. eexists. split; reflexivity.
      * repeat (split; [first [discriminate | reflexivity]|]).
        right. split; [reflexivity|]. exists (InvalidPort n). reflexivity.
    + destruct Hc as [-> [-> | ->]];
        repeat (split; [first [discriminate | reflexivity]|]);
        right; (split; [reflexivity|]); eexists; reflexivity.
  - unfold restCommandFacility. rewrite (parse_uri_rejects uri Hsep).
    split; reflexivity.
Qed.

Lemma make_outcome_witness :
  size "rest://ep1@localhost:70000" < npos /\
  match @make scripted "rest://ep1@localhost:70000" with
  | Throw t =>
      t = std_exception (UnsupportedUri "rest://ep1@localhost:70000") /\
      first_occurrence "://" "rest://ep1@localhost:70000" = None
  | Return s =>
      first_occurrence "://" "rest://ep1@localhost:70000" <> None /\
      response_handler_ s = AtWhile /\ result_queue_ s = [] /\
      manager_ptr_ s = indeterminate /\
      ((exists ep, rest_endpoint_ s = Some ep /\ reported (ers s) = []) \/
       (rest_endpoint_ s = None /\
        exists e, reported (ers s) = [UnsupportedUri (what e)]))
  end.
Proof.
  split; [reflexivity|].
  exact (@make_outcome scripted "rest://ep1@localhost:70000" eq_refl).
Defined.

(** ** Signals *)

Section SignalFacts.

Context `{Collaborators}.

Lemma last_cons {A : Type} (a d : A) (l : list A) : last (a :: l) d = last l a.
Proof.
  revert a d. induction l as [|b l IH]; intros a d; [reflexivity|].
  change (last (a :: b :: l) d) with (last (b :: l) d).
  now rewrite (IH b d), (IH b a).
Qed.

Lemma last_signal_nonzero sgs d :
  sgs <> [] -> last (map signal_number sgs) d <> 0.
Proof.
  revert d. induction sgs as [|sg sgs IH]; intros d Hne; [congruence|].
  cbn [map]. rewrite last_cons. destruct sgs as [|sg' sgs].
  - cbn. now destruct sg.
  - apply IH. discriminate.
Qed.

Lemma signal_lines_app l1 l2 :
  signal_lines (l1 ++ l2) = (signal_lines l1 ++ signal_lines l2)%list.
Proof.
  induction l1 as [|e l1 IH]; [reflexivity|].
  destruct e; simpl; now rewrite IH.
Qed.

Lemma reported_app l1 l2 :
  reported (l1 ++ l2) = (reported l1 ++ reported l2)%list.
Proof.
  induction l1 as [|e l1 IH]; [reflexivity|].
  destruct e; simpl; now rewrite IH.
Qed.

(** The response handler leaves everything but the queue, its own control
    point and the answer lines alone. *)
Lemma handler_keeps s :
  global_signal (responseHandler s) = global_signal s /\
  completed (responseHandler s) = completed s /\
  signal_lines (ers (responseHandler s)) = signal_lines (ers s) /\
  reported (ers (responseHandler s)) = reported (ers s).
Proof.
  unfold responseHandler.
  destruct (response_handler_ s);
    [ destruct (global_signal s =? 0)
    | destruct (result_queue_ s)
    |
    | destruct (result_queue_ s)
    | destruct (is_ready fut s)
    | ];
    cbn; rewrite ?signal_lines_app, ?reported_app; cbn;
    rewrite ?app_nil_r; auto.
Qed.

(** Only the delivery of a signal writes the flag or a signal line. *)
Lemma step_signals ev s s' :
  step ev s = Some s' ->
  global_signal s' = last (map signal_number (signals [ev])) (global_signal s) /\
  signal_lines (ers s')
  = (signal_lines (ers s) ++ map signal_number (signals [ev]))%list.
Proof.
  intros Hs. destruct ev; cbn [signals map last] in *; cbn [step] in Hs.
  - apply (signal_delivered sg s s') in Hs. injection Hs as <-. cbn. now rewrite signal_lines_app.
  - injection Hs as <-. cbn. now rewrite app_nil_r.
  - injection Hs as <-. cbn. now rewrite app_nil_r.
  - injection Hs as <-. destruct (handler_keeps s) as (-> & _ & -> & _).
    now rewrite app_nil_r.
  - unfold run_enter in Hs. rewrite app_nil_r.
    destruct (owner s); [|now injection Hs as <-].
    cbn in Hs. destruct (rest_endpoint_ s); [|discriminate].
    destruct start_failure; injection Hs as <-; cbn;
      rewrite ?signal_lines_app; cbn; now rewrite ?app_nil_r.
  - unfold run_poll in Hs. rewrite app_nil_r.
    destruct (owner s); [now injection Hs as <-|].
    destruct (global_signal s =? 0); [now injection Hs as <-|].
    destruct (rest_endpoint_ s); [|discriminate].
    now injection Hs as <-.
Qed.

Lemma exec_signals evs :
  forall s s',
    exec evs s = Some s' ->
    global_signal s' = last (map signal_number (signals evs)) (global_signal s) /\
    signal_lines (ers s')
    = (signal_lines (ers s) ++ map signal_number (signals evs))%list.
Proof.
  induction evs as [|ev evs IH]; intros s s' He.
  - injection He as <-. cbn. now rewrite app_nil_r.
  - cbn [exec] in He. destruct (step ev s) as [s1|] eqn:H1; [|discriminate].
    destruct (step_signals ev s s1 H1) as [Hg Hl].
    destruct (IH s1 s' He) as [Hg' Hl'].
    rewrite Hg', Hl', Hg, Hl.
    destruct ev;
      try (cbn [signals map last app]; rewrite ?app_nil_r; split; reflexivity).
    cbn [signals map].
    change (last [signal_number sg] (global_signal s)) with (signal_number sg).
    rewrite (last_cons (signal_number sg) (global_signal s)
               (map signal_number (signals evs))).
    split; [reflexivity|]. now rewrite <- app_assoc.
Qed.

(** A handler that has returned has seen the flag set. *)
Lemma finished_after_signal ev s s' :
  (response_handler_ s = Finished -> global_signal s <> 0) ->
  step ev s = Some s' ->
  response_handler_ s' = Finished -> global_signal s' <> 0.
Proof.
  intros Hi Hs. destruct ev; cbn [step] in Hs.
  - apply (signal_delivered sg s s') in Hs. injection Hs as <-. intros _. cbn. now destruct sg.
  - injection Hs as <-. exact Hi.
  - injection Hs as <-. exact Hi.
  - injection Hs as <-. destruct (handler_keeps s) as (-> & _).
    unfold responseHandler. destruct (response_handler_ s) eqn:Hpc.
    + destruct (global_signal s =? 0) eqn:Hg; cbn; [discriminate|].
      intros _. now apply Z.eqb_neq.
    + destruct (result_queue_ s); cbn; discriminate.
    + cbn. discriminate.
    + destruct (result_queue_ s); cbn; discriminate.
    + destruct (is_ready fut s); cbn; [discriminate|]. rewrite Hpc. discriminate.
    + intros _. now apply Hi.
  - unfold run_enter in Hs.
    destruct (owner s); [|injection Hs as <-; exact Hi].
    cbn in Hs. destruct (rest_endpoint_ s); [|discriminate].
    destruct start_failure; injection Hs as <-; exact Hi.
  - unfold run_poll in Hs.
    destruct (owner s); [injection Hs as <-; exact Hi|].
    destruct (global_signal s =? 0); [injection Hs as <-; exact Hi|].
    destruct (rest_endpoint_ s); [|discriminate].
    injection Hs as <-. exact Hi.
Qed.

End SignalFacts.

(** X6: along any interleaving, [global_signal] holds the number of the
    signal delivered last (or its old value when none was delivered), and
    [sigHandler] has written one line per delivered signal, in order of
    delivery. *)
Theorem flag_holds_last_signal {C : Collaborators}
        (evs : list event) (s s' : system) :
  exec evs s = Some s' ->
  global_signal s' = last (map signal_number (signals evs)) (global_signal s) /\
  signal_lines (ers s')
  = (signal_lines (ers s) ++ map signal_number (signals evs))%list.
Proof. apply exec_signals. Qed.

Lemma flag_holds_last_signal_witness :
  exists s',
    exec while_stuck stopping = Some s' /\
    global_signal s' = 6 /\ signal_lines (ers s') = [3; 3; 6].
Proof.
  eexists. split; [vm_compute; reflexivity|].
  match goal with
  | |- global_signal ?x = _ /\ _ =>
      exact (@flag_holds_last_signal scripted while_stuck stopping x eq_refl)
  end.
Defined.

(** X7: for a facility as the constructor left it, the flag is zero exactly
    as long as no signal has been delivered; the response handler returns
    only after a signal, so without one the destructor's join does not
    return. *)
Theorem handler_returns_only_after_signal {C : Collaborators}
        (uri : string) (s0 : system) (evs : list event) (s : system) :
  restCommandFacility uri = Return s0 ->
  exec evs s0 = Some s ->
  (global_signal s = 0 <-> signals evs = []) /\
  (response_handler_ s = Finished -> signals evs <> []) /\
  (signals evs = [] -> destructor s = None).
Proof.
  intros Hs0 He.
  destruct (constructed_state uri s0 Hs0) as (Hg0 & _ & _ & Hpc0 & _).
  destruct (exec_signals evs s0 s He) as [Hg _]. rewrite Hg0 in Hg.
  assert (Hflag : global_signal s = 0 <-> signals evs = []).
  { split.
    - intros Hz. destruct (signals evs) as [|sg sgs] eqn:Hsg; [reflexivity|].
      exfalso. apply (last_signal_nonzero (sg :: sgs) 0); [discriminate|].
      now rewrite <- Hg.
    - intros Hn. now rewrite Hg, Hn. }
  assert (Hfin : response_handler_ s = Finished -> global_signal s <> 0).
  { apply (exec_preserves
             (fun x => response_handler_ x = Finished -> global_signal x <> 0))
      with (evs := evs) (s := s0).
    - intros ev x x' Hx Hstep. exact (finished_after_signal ev x x' Hx Hstep).
    - rewrite Hpc0. discriminate.
    - exact He. }
  split; [exact Hflag|]. split.
  - intros Hf Hn. apply (Hfin Hf). now apply Hflag.
  - intros Hn. unfold destructor.
    destruct (response_handler_ s) eqn:Hpc; try reflexivity.
    exfalso. apply (Hfin eq_refl). now apply Hflag.
Qed.

Lemma handler_returns_only_after_signal_witness :
  exists s0 s,
    @restCommandFacility scripted "rest://ep1@localhost:12345" = Return s0 /\
    exec out_of_order_trace s0 = Some s /\
    global_signal s = 0 /\ destructor s = None.
Proof.
  eexists. eexists.
  split; [vm_compute; reflexivity|].
  split; [vm_compute; reflexivity|].
  match goal with
  | |- global_signal ?x = _ /\ _ =>
      pose proof (@handler_returns_only_after_signal scripted
                    "rest://ep1@localhost:12345" _ out_of_order_trace x
                    ltac:(vm_compute; reflexivity)
                    ltac:(vm_compute; reflexivity)) as (Hflag & _ & Hjoin)
  end.
  split; [exact (proj2 Hflag eq_refl) | exact (Hjoin eq_refl)].
Defined.

(** ** Serving *)

Section ServingFacts.

Context `{Collaborators}.

(** Without an endpoint, [run] cannot be entered. *)
Lemma no_endpoint_no_run evs :
  forall s s',
    rest_endpoint_ s = None -> owner s = OutsideRun ->
    exec evs s = Some s' ->
    calls_run evs = false /\ rest_endpoint_ s' = None /\ owner s' = OutsideRun.
Proof.
  induction evs as [|ev evs IH]; intros s s' Hep Ho He.
  - injection He as <-. auto.
  - cbn [exec] in He. destruct (step ev s) as [s1|] eqn:H1; [|discriminate].
    assert (Hstep : rest_endpoint_ s1 = None /\ owner s1 = OutsideRun /\
                    calls_run (ev :: evs) = calls_run evs).
    { destruct ev; cbn [step calls_run] in *.
      - apply (signal_delivered sg s s1) in H1. injection H1 as <-. auto.
      - injection H1 as <-. auto.
      - injection H1 as <-. auto.
      - injection H1 as <-. destruct (handler_frame s) as (-> & _ & ->). auto.
      - unfold run_enter in H1. rewrite Ho in H1. cbn in H1.
        rewrite Hep in H1. discriminate H1.
      - unfold run_poll in H1. rewrite Ho in H1. injection H1 as <-. auto. }
    destruct Hstep as (Hep1 & Ho1 & ->). exact (IH s1 s' Hep1 Ho1 He).
Qed.

(** The endpoint the constructor creates is not listening yet. *)
Lemma constructed_endpoint_idle uri s0 ep :
  restCommandFacility uri = Return s0 ->
  rest_endpoint_ s0 = Some ep -> ep_listening ep = false.
Proof.
  intros Hs0 Hep.
  destruct (constructed_state uri s0 Hs0)
    as (_ & _ & _ & _ & _ & _ & parts & _ & He).
  pose proof (setup_endpoint_cases parts deferred) as Hc.
  destruct (stoi (portstr parts)) as [n|t].
  - destruct ((1 <=? n) && (n <=? 65535)); rewrite Hc in He.
    + rewrite Hep in He. now injection He as ->.
    + congruence.
  - destruct Hc as [Hc _]. rewrite Hc in He. congruence.
Qed.

(** [start()] without a later [shutdown()] means [run] is active. *)
Lemma listening_step ev s s' :
  (forall ep, rest_endpoint_ s = Some ep -> ep_listening ep = true ->
              owner s = InsideRun) ->
  step ev s = Some s' ->
  forall ep, rest_endpoint_ s' = Some ep -> ep_listening ep = true ->
             owner s' = InsideRun.
Proof.
  intros Hi Hs. destruct ev; cbn [step] in Hs.
  - apply (signal_delivered sg s s') in Hs. injection Hs as <-. exact Hi.
  - injection Hs as <-. exact Hi.
  - injection Hs as <-. exact Hi.
  - injection Hs as <-. destruct (handler_frame s) as (-> & _ & ->). exact Hi.
  - unfold run_enter in Hs. destruct (owner s) eqn:Ho.
    + cbn in Hs. destruct (rest_endpoint_ s); [|discriminate].
      destruct start_failure; injection Hs as <-; reflexivity.
    + injection Hs as <-. now rewrite Ho.
  - unfold run_poll in Hs. destruct (owner s) eqn:Ho.
    + injection Hs as <-. rewrite Ho. exact Hi.
    + destruct (global_signal s =? 0); [injection Hs as <-; now rewrite Ho|].
      destruct (rest_endpoint_ s); [|discriminate].
      injection Hs as <-. cbn. intros ep Hep. injection Hep as <-. discriminate.
Qed.

(** While no signal is delivered, a [run] that is active stays active with
    the manager it was given. *)
Lemma run_waits evs :
  forall s s',
    owner s = InsideRun -> global_signal s = 0 -> signals evs = [] ->
    exec evs s = Some s' ->
    owner s' = InsideRun /\ manager_ptr_ s' = manager_ptr_ s /\
    global_signal s' = 0.
Proof.
  induction evs as [|ev evs IH]; intros s s' Ho Hg Hn He.
  - injection He as <-. auto.
  - cbn [exec] in He. destruct (step ev s) as [s1|] eqn:H1; [|discriminate].
    assert (Hstep : owner s1 = InsideRun /\ manager_ptr_ s1 = manager_ptr_ s /\
                    global_signal s1 = 0 /\ signals evs = []).
    { destruct ev; cbn [step signals] in *; try discriminate Hn.
      - injection H1 as <-. auto.
      - injection H1 as <-. auto.
      - injection H1 as <-. destruct (handler_frame s) as (-> & -> & _).
        destruct (handler_keeps s) as (-> & _). auto.
      - unfold run_enter in H1. rewrite Ho in H1. injection H1 as <-. auto.
      - unfold run_poll in H1. rewrite Ho, Hg in H1. cbn in H1.
        injection H1 as <-. auto. }
    destruct Hstep as (Ho1 & Hm1 & Hg1 & Hn1).
    destruct (IH s1 s' Ho1 Hg1 Hn1 He) as (? & ? & ?).
    repeat split; congruence.
Qed.

End ServingFacts.

(** X8: a facility built from an accepted URI whose port text is not
    accepted has no endpoint, and every interleaving in which [run] is
    called on it has no defined behaviour: [run] dereferences the null
    [rest_endpoint_]. *)
Theorem bad_port_facility_cannot_run {C : Collaborators}
        (uri : string) (sep col : nat) (s0 : system) (evs : list event) :
  size uri < npos ->
  first_occurrence "://" uri = Some sep ->
  last_index ":" uri = Some col ->
  (forall p, stoi (drop (col + 1) uri) = Return p -> ~ 1 <= p <= 65535) ->
  restCommandFacility uri = Return s0 ->
  rest_endpoint_ s0 = None /\
  (calls_run evs = true -> exec evs s0 = None).
Proof.
  intros Hsz Hsep Hcol Hbad Hs0.
  assert (Hnone : rest_endpoint_ s0 = None).
  { destruct (constructed_state uri s0 Hs0)
      as (_ & _ & _ & _ & _ & _ & parts & Hp & He).
    rewrite (parse_uri_accepts uri sep col Hsz Hsep Hcol) in Hp.
    cbv zeta in Hp. injection Hp as <-.
    match type of He with
    | context [setup_endpoint ?parts deferred] =>
        pose proof (setup_endpoint_cases parts deferred) as Hc;
          cbn [portstr] in Hc
    end.
    destruct (stoi (drop (col + 1) uri)) as [n|t] eqn:Hn.
    - destruct ((1 <=? n) && (n <=? 65535)) eqn:Hr.
      + exfalso. apply (Hbad n eq_refl).
        apply andb_true_iff in Hr as [H1 H2].
        apply Z.leb_le in H1. apply Z.leb_le in H2. lia.
      + rewrite Hc in He. exact He.
    - destruct Hc as [Hc _]. rewrite Hc in He. exact He. }
  split; [exact Hnone|].
  intros Hrun. destruct (exec evs s0) as [s|] eqn:He; [|reflexivity].
  destruct (constructed_state uri s0 Hs0) as (_ & _ & _ & _ & Ho & _).
  destruct (no_endpoint_no_run evs s0 s Hnone Ho He) as (Hno & _).
  congruence.
Qed.

Lemma bad_port_facility_cannot_run_witness :
  exists s0,
    @restCommandFacility scripted "rest://ep1@localhost:70000" = Return s0 /\
    rest_endpoint_ s0 = None /\
    exec served_and_stopped s0 = None.
Proof.
  eexists. split; [vm_compute; reflexivity|].
  match goal with
  | |- rest_endpoint_ ?x = _ /\ _ =>
      pose proof (@bad_port_facility_cannot_run scripted
                    "rest://ep1@localhost:70000" 4 20 x served_and_stopped
                    eq_refl eq_refl eq_refl) as Hbad
  end.
  destruct Hbad as [Hnone Hrun].
  - intros p Hp. vm_compute in Hp. injection Hp as <-. lia.
  - vm_compute; reflexivity.
  - split; [exact Hnone | exact (Hrun eq_refl)].
Defined.

(** X9: [run] does not return by itself.  While no signal is delivered, a
    [run] that is active stays active and [manager_ptr_] keeps referring to
    the manager [run] was given, whatever the other threads do. *)
Theorem run_waits_for_signal {C : Collaborators}
        (evs : list event) (s s' : system) :
  owner s = InsideRun -> global_signal s = 0 -> signals evs = [] ->
  exec evs s = Some s' ->
  owner s' = InsideRun /\ manager_ptr_ s' = manager_ptr_ s /\
  global_signal s' = 0.
Proof. apply run_waits. Qed.

Lemma run_waits_for_signal_witness :
  exists s',
    exec (RunPoll :: two_pushes ++ [Handler; RunPoll; Handler; Handler; RunPoll])
         (serving (fun _ => Return tt)) = Some s' /\
    owner s' = InsideRun /\
    manager_ptr_ s' = manager_ptr_ (serving (fun _ => Return tt)) /\
    global_signal s' = 0.
Proof.
  eexists. split; [vm_compute; reflexivity|].
  match goal with
  | |- owner ?x = _ /\ _ =>
      exact (@run_waits_for_signal scripted
               (RunPoll :: two_pushes ++ [Handler; RunPoll; Handler; Handler; RunPoll])
               (serving (fun _ => Return tt)) x
               eq_refl eq_refl eq_refl eq_refl)
  end.
Defined.

(** X10: the flag is never cleared, so a facility that has received a signal
    cannot serve again.  Whatever happened since the signal, a [run] entered
    afterwards returns at the first test of its wait loop, with the endpoint
    shut down and [manager_ptr_] null. *)
Theorem signalled_facility_does_not_serve {C : Collaborators}
        (s : system) (evs : list event) (s1 : system) (ep : RestEndpoint)
        (manager : DAQModuleManager) (start_failure : option exception) :
  global_signal s <> 0 ->
  exec evs s = Some s1 ->
  owner s1 = OutsideRun ->
  rest_endpoint_ s1 = Some ep ->
  exists s2,
    exec [RunCall manager start_failure; RunPoll] s1 = Some s2 /\
    owner s2 = OutsideRun /\ manager_ptr_ s2 = nullptr /\
    rest_endpoint_ s2 = Some (ep_set_listening false ep).
Proof.
  intros Hg He Ho Hep.
  assert (Hg1 : global_signal s1 <> 0).
  { apply (exec_preserves (fun x => global_signal x <> 0)) with (evs := evs) (s := s).
    - intros ev x x'. apply signal_stays_set.
    - exact Hg.
    - exact He. }
  apply Z.eqb_neq in Hg1.
  cbn [exec step]. unfold run_enter. rewrite Ho. cbn. rewrite Hep.
  destruct start_failure; cbn -[Z.eqb]; unfold run_poll; cbn -[Z.eqb];
    rewrite Hg1, ?Hep; eexists; repeat split; reflexivity.
Qed.

Lemma signalled_facility_does_not_serve_witness :
  exists s2,
    exec [@RunCall scripted (fun _ => Return tt) None; RunPoll] stopping = Some s2 /\
    owner s2 = OutsideRun /\ manager_ptr_ s2 = nullptr /\
    rest_endpoint_ s2
    = Some (ep_set_listening false
              {| ep_host := "localhost"; ep_port := 12345; ep_policy := deferred;
                 ep_threads := 1; ep_listening := false |}).
Proof.
  refine (@signalled_facility_does_not_serve scripted stopping [] stopping _
            (fun _ => Return tt) None _ eq_refl eq_refl eq_refl).
  discriminate.
Defined.

(** X11: the endpoint is started only inside [run] and shut down before
    [run] returns: along every interleaving from a constructed facility, an
    endpoint that has been started and not shut down since means that a
    [run] call is active. *)
Theorem listening_only_inside_run {C : Collaborators}
        (uri : string) (s0 : system) (evs : list event) (s : system)
        (ep : RestEndpoint) :
  restCommandFacility uri = Return s0 ->
  exec evs s0 = Some s ->
  rest_endpoint_ s = Some ep ->
  ep_listening ep = true ->
  owner s = InsideRun /\ exists manager, manager_ptr_ s = ref manager.
Proof.
  intros Hs0 He Hep Hl.
  assert (Ho : owner s = InsideRun).
  { revert ep Hep Hl.
    apply (exec_preserves
             (fun x => forall ep, rest_endpoint_ x = Some ep ->
                                  ep_listening ep = true -> owner x = InsideRun))
      with (evs := evs) (s := s0).
    - intros ev x x' Hx Hstep. exact (listening_step ev x x' Hx Hstep).
    - intros ep Hep Hl.
      rewrite (constructed_endpoint_idle uri s0 ep Hs0 Hep) in Hl. discriminate.
    - exact He. }
  split; [exact Ho|].
  destruct (constructed_state uri s0 Hs0) as (_ & Hm0 & _ & _ & Ho0 & _).
  assert (Hi0 : run_invariant false s0).
  { unfold run_invariant. now rewrite Ho0. }
  pose proof (run_invariant_exec evs false s0 s Hi0 He) as Hi.
  unfold run_invariant in Hi. rewrite Ho in Hi. tauto.
Qed.

Lemma listening_only_inside_run_witness :
  exists s0 s,
    @restCommandFacility scripted "rest://ep1@localhost:12345" = Return s0 /\
    exec [@RunCall scripted (fun _ => Return tt) None; Handler] s0 = Some s /\
    owner s = InsideRun /\ exists manager, manager_ptr_ s = ref manager.
Proof.
  eexists. eexists.
  split; [vm_compute; reflexivity|].
  split; [vm_compute; reflexivity|].
  match goal with
  | |- owner ?x = _ /\ _ =>
      exact (@listening_only_inside_run scripted
               "rest://ep1@localhost:12345" _
               [@RunCall scripted (fun _ => Return tt) None; Handler] x
               {| ep_host := "localhost"; ep_port := 12345; ep_policy := deferred;
                  ep_threads := 1; ep_listening := true |}
               ltac:(vm_compute; reflexivity) ltac:(vm_compute; reflexivity)
               eq_refl eq_refl)
  end.
Defined.

(** ** Draining and shutting down *)

Section DrainFacts.

Context `{Collaborators}.



(** The handler's own steps do not touch what belongs to [run]. *)
Lemma handler_steps_frame n s :
  owner (Nat.iter n responseHandler s) = owner s /\
  manager_ptr_ (Nat.iter n responseHandler s) = manager_ptr_ s /\
  rest_endpoint_ (Nat.iter n responseHandler s) = rest_endpoint_ s.
Proof.
  induction n as [|n IH]; [auto|].
  cbn [Nat.iter nat_rect].
  change (nat_rect (fun _ => system) s (fun _ => responseHandler) n)
    with (Nat.iter n responseHandler s).
  destruct (handler_frame (Nat.iter n responseHandler s)) as (-> & -> & ->).
  exact IH.
Qed.

End DrainFacts.



Section ShutdownFacts.

Context `{Collaborators}.

Lemma exec_app evs1 evs2 s :
  exec (evs1 ++ evs2) s
  = match exec evs1 s with
    | Some s1 => exec evs2 s1
    | None => None
    end.
Proof.
  revert s. induction evs1 as [|ev evs1 IH]; intros s; [reflexivity|].
  cbn [app exec]. destruct (step ev s); [apply IH | reflexivity].
Qed.

End ShutdownFacts.

(** X13: a signal that [sigHandler] catches shuts a serving facility down.
    In every state reached from the constructor in which [run] is active and
    the handler is committed to no outcome, or to an asynchronous one that
    has completed, SIGQUIT or SIGABRT followed by one test of [run]'s wait
    loop and at most four steps of the response handler leaves [run]
    returned, [manager_ptr_] null and the handler finished, so that the
    destructor's join returns. *)
Theorem signal_shuts_facility_down {C : Collaborators}
        (uri : string) (s0 : system) (evs : list event) (s : system)
        (sg : signum) :
  restCommandFacility uri = Return s0 ->
  exec evs s0 = Some s ->
  owner s = InsideRun ->
  sg <> SIGKILL ->
  (forall fut, committed s = Some fut ->
               fut_launch fut = async /\ is_ready fut s = true) ->
  exists n s',
    (n <= 4)%nat /\
    exec (Signal sg :: RunPoll :: repeat Handler n) s = Some s' /\
    owner s' = OutsideRun /\ manager_ptr_ s' = nullptr /\
    response_handler_ s' = Finished /\ destructor s' = Some s'.
Proof.
  intros Hs0 He Ho Hsg Hr.
  destruct (constructed_state uri s0 Hs0) as (_ & Hm0 & _ & _ & Ho0 & _).
  assert (Hi0 : run_invariant false s0).
  { unfold run_invariant. now rewrite Ho0. }
  pose proof (run_invariant_exec evs false s0 s Hi0 He) as Hi.
  unfold run_invariant in Hi. rewrite Ho in Hi.
  destruct Hi as (_ & _ & Hep).
  destruct (rest_endpoint_ s) as [ep|] eqn:Hep'; [clear Hep | congruence].
  set (s2 := with_owner OutsideRun
               (with_manager nullptr
                  (with_endpoint (Some (ep_set_listening false ep))
                     (sigHandler (signal_number sg) s)))).
  assert (Hnz : (signal_number sg =? 0) = false) by now destruct sg.
  assert (H2 : exec [Signal sg; RunPoll] s = Some s2).
  { cbn [exec step]. replace (deliver sg s)
      with (Some (sigHandler (signal_number sg) s))
      by (unfold deliver; destruct sg; congruence).
    unfold run_poll. cbn -[Z.eqb]. now rewrite Ho, Hep', Hnz. }
  assert (Hg2 : global_signal s2 <> 0) by (cbn; now apply Z.eqb_neq).
  assert (Hr2 : forall fut, committed s2 = Some fut -> is_ready fut s2 = true).
  { intros fut Hc. rewrite (is_ready_completed fut s2 s eq_refl).
    apply (Hr fut). exact Hc. }
  destruct (handler_exits_when_set s2 Hg2 Hr2)
    as (n & s' & done & Hn & _ & Hex & Hfin & _).
  exists n, s'. split; [exact Hn|].
  split.
  { change (Signal sg :: RunPoll :: repeat Handler n)
      with ([Signal sg; RunPoll] ++ repeat Handler n)%list.
    now rewrite exec_app, H2. }
  rewrite exec_handler_steps in Hex. injection Hex as <-.
  destruct (handler_steps_frame n s2) as (Ho' & Hm' & _).
  repeat split.
  - now rewrite Ho'.
  - now rewrite Hm'.
  - exact Hfin.
  - unfold destructor. now rewrite Hfin.
Qed.

Lemma signal_shuts_facility_down_witness :
  exists s0 s,
    @restCommandFacility scripted "rest://ep1@localhost:12345" = Return s0 /\
    exec (@RunCall scripted (fun _ => Return tt) None :: two_pushes) s0 = Some s /\
    exists n s',
      (n <= 4)%nat /\
      exec (Signal SIGABRT :: RunPoll :: repeat Handler n) s = Some s' /\
      owner s' = OutsideRun /\ manager_ptr_ s' = nullptr /\
      response_handler_ s' = Finished /\ destructor s' = Some s'.
Proof.
  eexists. eexists.
  split; [vm_compute; reflexivity|].
  split; [vm_compute; reflexivity|].
  refine (@signal_shuts_facility_down scripted "rest://ep1@localhost:12345" _
            (@RunCall scripted (fun _ => Return tt) None :: two_pushes) _
            SIGABRT _ _ _ _ _).
  - vm_compute; reflexivity.
  - vm_compute; reflexivity.
  - reflexivity.
  - discriminate.
  - intros fut Hc. vm_compute in Hc. discriminate Hc.
Defined.

(** X14: the flag is tested only at the head of the loop.  While the handler
    waits for an outcome that is not ready and never completes, it stays in
    that wait whatever else happens, signals included, and the destructor's
    join does not return. *)
Theorem unresolved_outcome_blocks_destructor {C : Collaborators}
        (fut : future) (evs : list event) (s s' : system) :
  response_handler_ s = AtWait fut ->
  is_ready fut s = false ->
  never_completes (fut_id fut) evs ->
  exec evs s = Some s' ->
  response_handler_ s' = AtWait fut /\ destructor s' = None.
Proof.
  intros Hw Hr Hnc He.
  destruct (blocked_behind_head fut evs Hnc s s' Hw Hr He) as (Hw' & _ & _).
  split; [exact Hw'|]. unfold destructor. now rewrite Hw'.
Qed.

Lemma unresolved_outcome_blocks_destructor_witness :
  exists s0 s s',
    @restCommandFacility scripted "rest://ep1@localhost:12345" = Return s0 /\
    exec stuck_trace s0 = Some s /\
    exec while_stuck s = Some s' /\
    global_signal s' <> 0 /\
    response_handler_ s = AtWait first_outcome /\
    response_handler_ s' = AtWait first_outcome /\ destructor s' = None.
Proof.
  eexists. eexists. eexists.
  split; [vm_compute; reflexivity|].
  split; [vm_compute; reflexivity|].
  split; [vm_compute; reflexivity|].
  split; [discriminate|].
  match goal with
  | |- response_handler_ ?x = _ /\ response_handler_ ?y = _ /\ _ =>
      split; [reflexivity|];
      refine (@unresolved_outcome_blocks_destructor scripted first_outcome
                while_stuck x y _ _ _ _)
  end.
  - reflexivity.
  - reflexivity.
  - cbn. repeat split; discriminate.
  - vm_compute; reflexivity.
Defined.

(** ** An '@' out of place *)

Section MisplacedAtFacts.

Lemma wrap_negative z : - 2 ^ 64 <= z < 0 -> wrap z = z + 2 ^ 64.
Proof.
  intros Hz. unfold wrap.
  rewrite <- (Z.mod_add z 1 (2 ^ 64)) by lia.
  rewrite Z.mul_1_l. apply Z.mod_small. lia.
Qed.

(** No '@' lies inside the "://" that was found. *)
Lemma at_not_in_separator uri sep at_ :
  first_occurrence "://" uri = Some sep ->
  first_index "@" uri = Some at_ ->
  (at_ < sep)%nat \/ (sep + 3 <= at_)%nat.
Proof.
  intros Hsep Hat.
  pose proof (starts_with_split _ _ (first_occurrence_here _ _ _ Hsep)) as Hd.
  pose proof (first_index_here _ _ _ Hat) as Ha.
  destruct (Nat.lt_ge_cases at_ sep) as [Hlt|Hge]; [now left|].
  destruct (Nat.le_gt_cases (sep + 3) at_) as [Hok|Hin]; [now right|].
  exfalso.
  assert (Hk : exists k, (k < 3)%nat /\ at_ = (sep + k)%nat)
    by (exists (at_ - sep)%nat; lia).
  destruct Hk as (k & Hk & ->).
  rewrite <- (drop_drop k sep uri), Hd in Ha.
  destruct k as [|[|[|k]]]; [| | |lia]; cbn in Ha; discriminate Ha.
Qed.

End MisplacedAtFacts.

(** X15: the constructor takes the first '@' of the whole string.  When it
    occurs before "://", the unsigned length [at-(sep+3)] wraps around: the
    name is then everything after "://" and the host is the text from that
    '@' to the last ':', scheme separator included. *)
Theorem at_before_separator (uri : string) (parts : uri_parts) (sep at_ col : nat) :
  size uri < npos ->
  first_occurrence "://" uri = Some sep ->
  first_index "@" uri = Some at_ ->
  last_index ":" uri = Some col ->
  (at_ < sep)%nat ->
  parse_uri uri = Return parts ->
  epname parts = iname parts /\
  hostname parts = take (col - (at_ + 1)) (drop (at_ + 1) uri).
Proof.
  intros Hsz Hsep Hat Hcol Has Hp.
  pose proof (first_occurrence_bound _ _ _ Hsep) as Hsb.
  pose proof (last_index_bound _ _ _ Hcol) as Hcb.
  destruct (separator_has_colon _ _ Hsep) as (col' & Hcol' & Hle).
  rewrite Hcol in Hcol'. injection Hcol' as <-.
  change (String.length "://") with 3%nat in Hsb.
  assert (Hsz' : size uri < 18446744073709551615) by (now rewrite <- npos_value).
  assert (Hlen : size uri = Z.of_nat (String.length uri)) by reflexivity.
  rewrite (parse_uri_accepts uri sep col Hsz Hsep Hcol) in Hp. cbv zeta in Hp.
  rewrite (wrap_after_at uri Hsz) in Hp.
  unfold find_char in Hp. rewrite Hat in Hp. cbn [position] in Hp.
  rewrite (wrap_negative (Z.of_nat at_ - _)) in Hp by lia.
  rewrite (wrap_small (Z.of_nat col - _)) in Hp by lia.
  rewrite Z.min_r, Z.min_l in Hp by lia.
  replace (Z.to_nat (Z.of_nat col - (Z.of_nat at_ + 1)))
    with (col - (at_ + 1))%nat in Hp by lia.
  replace (Z.to_nat (Z.of_nat at_ + 1)) with (at_ + 1)%nat in Hp by lia.
  rewrite (take_all _ (drop (sep + 3) uri)) in Hp by (rewrite length_drop; lia).
  injection Hp as <-. split; reflexivity.
Qed.

Lemma at_before_separator_witness :
  let parts := {| scheme := "a@b"; iname := "n@h:1"; portstr := "1";
                  epname := "n@h:1"; hostname := "b://n@h" |} in
  parse_uri "a@b://n@h:1" = Return parts /\
  epname parts = iname parts /\
  hostname parts = take (9 - (1 + 1)) (drop (1 + 1) "a@b://n@h:1").
Proof.
  intros parts. split; [reflexivity|].
  refine (at_before_separator "a@b://n@h:1" parts 3 1 9
            eq_refl eq_refl eq_refl eq_refl _ eq_refl).
  lia.
Defined.

(** X16: when the first '@' occurs after the last ':', the unsigned length
    [col-(at+1)] wraps around: the host is everything after the '@', the name
    is the text between "://" and the '@', and the port text still starts
    after the last ':' and so contains the '@' and the host. *)
Theorem at_after_last_colon (uri : string) (parts : uri_parts) (sep at_ col : nat) :
  size uri < npos ->
  first_occurrence "://" uri = Some sep ->
  first_index "@" uri = Some at_ ->
  last_index ":" uri = Some col ->
  (col < at_)%nat ->
  parse_uri uri = Return parts ->
  hostname parts = drop (at_ + 1) uri /\
  epname parts = take (at_ - (sep + 3)) (drop (sep + 3) uri) /\
  portstr parts
  = take (at_ - (col + 1)) (drop (col + 1) uri) ++ "@" ++ hostname parts.
Proof.
  intros Hsz Hsep Hat Hcol Hca Hp.
  pose proof (first_occurrence_bound _ _ _ Hsep) as Hsb.
  pose proof (first_index_bound _ _ _ Hat) as Hab.
  destruct (separator_has_colon _ _ Hsep) as (col' & Hcol' & Hle).
  rewrite Hcol in Hcol'. injection Hcol' as <-.
  change (String.length "://") with 3%nat in Hsb.
  assert (Hsz' : size uri < 18446744073709551615) by (now rewrite <- npos_value).
  assert (Hlen : size uri = Z.of_nat (String.length uri)) by reflexivity.
  assert (Hsa : (sep + 3 <= at_)%nat).
  { destruct (at_not_in_separator uri sep at_ Hsep Hat) as [Hlt|Hok];
      [lia | exact Hok]. }
  rewrite (parse_uri_accepts uri sep col Hsz Hsep Hcol) in Hp. cbv zeta in Hp.
  rewrite (wrap_after_at uri Hsz) in Hp.
  unfold find_char in Hp. rewrite Hat in Hp. cbn [position] in Hp.
  rewrite (wrap_small (Z.of_nat at_ - _)) in Hp by lia.
  rewrite (wrap_negative (Z.of_nat col - _)) in Hp by lia.
  rewrite Z.min_l, Z.min_r in Hp by lia.
  replace (Z.to_nat (Z.of_nat at_ - (Z.of_nat sep + 3)))
    with (at_ - (sep + 3))%nat in Hp by lia.
  replace (Z.to_nat (Z.of_nat at_ + 1)) with (at_ + 1)%nat in Hp by lia.
  rewrite (take_all _ (drop (at_ + 1) uri)) in Hp by (rewrite length_drop; lia).
  injection Hp as <-. cbn [hostname epname portstr].
  split; [reflexivity|]. split; [reflexivity|].
  rewrite (drop_between (col + 1) at_ uri) at 1 by lia.
  f_equal. apply first_index_here, Hat.
Qed.

Lemma at_after_last_colon_witness :
  let parts := {| scheme := "rest"; iname := "host:80@x"; portstr := "80@x";
                  epname := "host:80"; hostname := "x" |} in
  parse_uri "rest://host:80@x" = Return parts /\
  hostname parts = drop (14 + 1) "rest://host:80@x" /\
  epname parts = take (14 - (4 + 3)) (drop (4 + 3) "rest://host:80@x") /\
  portstr parts
  = take (14 - (11 + 1)) (drop (11 + 1) "rest://host:80@x")
    ++ "@" ++ hostname parts.
Proof.
  intros parts. split; [reflexivity|].
  refine (at_after_last_colon "rest://host:80@x" parts 4 14 11
            eq_refl eq_refl eq_refl eq_refl _ eq_refl).
  lia.
Defined.
